(** * The Grist map widget (page.js): record-to-map reconciliation

    A shallow embedding of the parts of [page.js] that decide the widget's
    specification: the GeoJSON point extractor, the geocoding scanner, the
    coordinate-mode feature pass of [updateMap] and the selection functions.

    JavaScript values are modelled as trees (primitives, arrays, plain
    objects).  Numbers are NaN or a rational: every finite double is a
    rational, no arithmetic is performed on them by the modelled code, and
    for a double [x] the test [x < 0.01] against the double nearest to 1/100
    (which lies above 1/100) holds exactly when [x < 1/100] as rationals.
    Infinities are outside the modelled domain.  The conversions between
    strings and numbers, [JSON.parse], object identity and the HTML
    sanitizer belong to the JavaScript environment and are parameters
    ([JsHost]). *)

From stdpp Require Import gmap strings list fin_maps pretty numbers.
From Stdlib Require Import QArith Qround Qabs.
Set Warnings "-register-all".
Close Scope Q_scope.
Local Open Scope string_scope.
Local Open Scope list_scope.
Local Open Scope nat_scope.

(** ** JavaScript values *)

Inductive JsNum :=
| NaN
| Num (q : Q).

Inductive JsVal :=
| VUndef
| VNull
| VBool (b : bool)
| VNum (n : JsNum)
| VStr (s : string)
| VArr (items : list JsVal)
| VObj (fields : list (string * JsVal)).

Definition VInt (z : Z) : JsVal := VNum (Num (inject_Z z)).

(** ** Exceptions *)

Inductive JsError :=
| TypeError
| SyntaxError
| InvalidLatLng
| Rejected.

Inductive Res (A : Type) :=
| Ok (a : A)
| Throw (e : JsError).
Arguments Ok {A} a.
Arguments Throw {A} e.

#[global] Instance Res_ret : MRet Res := fun _ a => Ok a.
#[global] Instance Res_bind : MBind Res := fun _ _ f m =>
  match m with
  | Ok a => f a
  | Throw e => Throw e
  end.

(** ** Engine primitives that are not modelled *)

Class JsHost := {
  (** [Number(s)] on a string *)
  StringToNumber : string -> JsNum;
  (** [String(n)] on a number *)
  NumberToString : JsNum -> string;
  (** [JSON.parse]; a [SyntaxError] is [Throw] *)
  JSON_parse : string -> Res JsVal;
  (** reference identity of two object values *)
  same_object : JsVal -> JsVal -> bool;
  (** [DOMPurify.sanitize] on a string *)
  DOMPurify_sanitize : string -> string
}.

(** ** Property access on value trees *)

Fixpoint alist_find (k : string) (fields : list (string * JsVal)) : option JsVal :=
  match fields with
  | [] => None
  | (k', v) :: rest => if String.eqb k k' then Some v else alist_find k rest
  end.

Definition alist_get (k : string) (fields : list (string * JsVal)) : JsVal :=
  default VUndef (alist_find k fields).

Definition chars (s : string) : list JsVal :=
  (fun c => VStr (String c "")) <$> String.list_ascii_of_string s.

Definition VLen (n : nat) : JsVal := VInt (Z.of_nat n).

(** [v.k] for one of the property names the source uses ([k] is not an
    array index).  Reading a property of [null] or [undefined] throws. *)
Definition get_prop (v : JsVal) (k : string) : Res JsVal :=
  match v with
  | VUndef | VNull => Throw TypeError
  | VObj fields => Ok (alist_get k fields)
  | VArr items => Ok (if String.eqb k "length" then VLen (length items) else VUndef)
  | VStr s => Ok (if String.eqb k "length" then VLen (String.length s) else VUndef)
  | VBool _ | VNum _ => Ok VUndef
  end.

(** [v[i]] for a non-negative integer [i]. *)
Definition get_idx (v : JsVal) (i : nat) : Res JsVal :=
  match v with
  | VUndef | VNull => Throw TypeError
  | VObj fields => Ok (alist_get (pretty i) fields)
  | VArr items => Ok (default VUndef (items !! i))
  | VStr s => Ok (default VUndef (chars s !! i))
  | VBool _ | VNum _ => Ok VUndef
  end.

(** Property read on a value already known not to be [null]/[undefined]. *)
Definition prop (v : JsVal) (k : string) : JsVal :=
  match get_prop v k with
  | Ok x => x
  | Throw _ => VUndef
  end.

(** ** Coercions *)

Definition truthy (v : JsVal) : bool :=
  match v with
  | VUndef | VNull => false
  | VBool b => b
  | VNum NaN => false
  | VNum (Num q) => negb (Qeq_bool q 0)
  | VStr s => negb (String.eqb s "")
  | VArr _ | VObj _ => true
  end.

Definition nullish (v : JsVal) : bool :=
  match v with
  | VUndef | VNull => true
  | _ => false
  end.

Section Coercions.
Context `{JsHost}.

(** [String(v)].  A plain object prints as [[object Object]] unless an own
    [toString] entry (never callable in a value tree) shadows the
    inherited method, in which case the conversion throws.  An array is
    the comma-joined conversion of its items. *)
Fixpoint ToString (v : JsVal) : Res string :=
  match v with
  | VUndef => Ok "undefined"
  | VNull => Ok "null"
  | VBool b => Ok (if b then "true" else "false")
  | VNum n => Ok (NumberToString n)
  | VStr s => Ok s
  | VArr items =>
      (fix join (l : list JsVal) : Res string :=
         match l with
         | [] => Ok ""
         | x :: rest =>
             match (match x with
                    | VUndef | VNull => Ok ""
                    | _ => ToString x
                    end) with
             | Throw e => Throw e
             | Ok sx =>
                 match rest with
                 | [] => Ok sx
                 | _ => match join rest with
                        | Throw e => Throw e
                        | Ok sr => Ok (sx +:+ "," +:+ sr)
                        end
                 end
             end
         end) items
  | VObj fields =>
      match alist_find "toString" fields with
      | Some _ => Throw TypeError
      | None => Ok "[object Object]"
      end
  end.

(** [Number(v)] *)
Definition ToNumber (v : JsVal) : Res JsNum :=
  match v with
  | VUndef => Ok NaN
  | VNull => Ok (Num 0)
  | VBool b => Ok (Num (if b then 1 else 0))
  | VNum n => Ok n
  | VStr s => Ok (StringToNumber s)
  | VArr _ | VObj _ => s ← ToString v; Ok (StringToNumber s)
  end.

Definition num_isNaN (n : JsNum) : bool :=
  match n with
  | NaN => true
  | Num _ => false
  end.

Definition isNaN (v : JsVal) : Res bool := n ← ToNumber v; Ok (num_isNaN n).

Definition num_eq (a b : JsNum) : bool :=
  match a, b with
  | Num x, Num y => Qeq_bool x y
  | _, _ => false
  end.

(** [ToPrimitive] followed by the conversion of booleans to numbers, the
    two normalisations the [==] algorithm applies to mixed operands. *)
Definition to_prim (v : JsVal) : Res JsVal :=
  match v with
  | VArr _ | VObj _ => s ← ToString v; Ok (VStr s)
  | VBool b => Ok (VNum (Num (if b then 1 else 0)))
  | _ => Ok v
  end.

Definition is_object (v : JsVal) : bool :=
  match v with
  | VArr _ | VObj _ => true
  | _ => false
  end.

(** [x == y] *)
Definition loose_eq (x y : JsVal) : Res bool :=
  if is_object x && is_object y then Ok (same_object x y)
  else if nullish x || nullish y then Ok (nullish x && nullish y)
  else
    x' ← to_prim x;
    y' ← to_prim y;
    Ok match x', y' with
       | VNum a, VNum b => num_eq a b
       | VStr a, VStr b => String.eqb a b
       | VNum a, VStr b => num_eq a (StringToNumber b)
       | VStr a, VNum b => num_eq (StringToNumber a) b
       | _, _ => false
       end.

(** [x === s] for a string literal [s] *)
Definition is_str (v : JsVal) (s : string) : bool :=
  match v with
  | VStr s' => String.eqb s' s
  | _ => false
  end.

(** The number of iterations of [for (i = 0; i < len; i++)]. *)
Definition loop_count (len : JsNum) : nat :=
  match len with
  | NaN => 0
  | Num q => Z.to_nat (Qceiling q)
  end.

(** The values [x[0]], [x[1]], ... that
    [for (let i = 0; i < x.length; i++) ... x[i] ...] visits (the counter
    is an exact natural number, as it is in JavaScript below 2^53). *)
Definition elements (x : JsVal) : Res (list JsVal) :=
  match x with
  | VUndef | VNull => Throw TypeError
  | VArr items => Ok items
  | VStr s => Ok (chars s)
  | VBool _ | VNum _ => Ok []
  | VObj fields =>
      len ← ToNumber (alist_get "length" fields);
      Ok ((fun i => alist_get (pretty i) fields) <$> seq 0 (loop_count len))
  end.

(** A loop with an accumulator that stops at the first exception and
    keeps what was accumulated until then. *)
Fixpoint for_each {A S : Type} (body : A -> S -> S * Res unit)
    (l : list A) (s : S) : S * Res unit :=
  match l with
  | [] => (s, Ok ())
  | a :: rest =>
      match body a s with
      | (s', Ok _) => for_each body rest s'
      | (s', Throw e) => (s', Throw e)
      end
  end.

End Coercions.

(** ** GeometryExtractor: [extractPointsFromGeoJSON] *)

Section GeometryExtractor.
Context `{JsHost}.


Record LatLng := mkLatLng { lat : JsNum; lng : JsNum }.

(** Leaflet's [new L.LatLng(lat, lng)]: rejects arguments that convert to
    NaN, otherwise stores the numeric conversions. *)
Definition new_LatLng (a b : JsVal) : Res LatLng :=
  nanA ← isNaN a;
  nanB ← (if (nanA : bool) then Ok true else isNaN b);
  if (nanB : bool) then Throw InvalidLatLng else
  na ← ToNumber a;
  nb ← ToNumber b;
  Ok (mkLatLng na nb).

(** The inner function [extractCoordinates(coords, depth)], pushing onto
    the enclosing [points] array. *)
Fixpoint extractCoordinates (depth : nat) (coords : JsVal)
    (points : list LatLng) : list LatLng * Res unit :=
  match depth with
  | 0 =>
      match (c1 ← get_idx coords 1; c0 ← get_idx coords 0; new_LatLng c1 c0) with
      | Ok p => (points ++ [p], Ok ())
      | Throw e => (points, Throw e)
      end
  | S d =>
      match elements coords with
      | Throw e => (points, Throw e)
      | Ok items => for_each (extractCoordinates d) items points
      end
  end.

(** [depthMap[key]]: the nesting depth by geometry type.  A key inherited
    from [Object.prototype] yields a non-numeric depth for which the
    descent never reaches level 0; no point is pushed then, as for a
    missing key. *)
Definition depthMap (key : string) : option nat :=
  if String.eqb key "Point" then Some 0
  else if String.eqb key "LineString" then Some 1
  else if String.eqb key "Polygon" then Some 2
  else if String.eqb key "MultiPoint" then Some 1
  else if String.eqb key "MultiLineString" then Some 2
  else if String.eqb key "MultiPolygon" then Some 3
  else None.

(** [geojson.type === "Feature" ? geojson.geometry : geojson] *)
Definition geometry_of (geojson : JsVal) : JsVal :=
  if is_str (prop geojson "type") "Feature" then prop geojson "geometry"
  else geojson.

(** The body of the [try] block, with the [points] accumulated so far
    returned next to the outcome; [self] is the recursive call. *)
Definition extract_try (self : JsVal -> list LatLng) (geojson : JsVal)
    : list LatLng * Res unit :=
  let geometry := geometry_of geojson in
  if negb (truthy geometry) || negb (truthy (prop geometry "coordinates"))
  then ([], Ok ())
  else
    match ToString (prop geometry "type") with
    | Throw e => ([], Throw e)
    | Ok key =>
        match depthMap key with
        | Some depth => extractCoordinates depth (prop geometry "coordinates") []
        | None =>
            if is_str (prop geometry "type") "GeometryCollection" then
              match elements (prop geometry "geometries") with
              | Throw e => ([], Throw e)
              | Ok subs =>
                  for_each (fun g pts => (pts ++ self g, Ok ())) subs []
              end
            else ([], Ok ())
        end
    end.

(** [extractPointsFromGeoJSON], with the recursion through sub-geometries
    bounded by [fuel]. *)
Fixpoint extractPoints_fuel (fuel : nat) (geojson : JsVal) : list LatLng :=
  match fuel with
  | 0 => []
  | S fuel' =>
      if negb (truthy geojson) || negb (truthy (prop geojson "type")) then []
      else fst (extract_try (extractPoints_fuel fuel') geojson)
  end.

(** Nesting height of a value tree; it bounds the recursion. *)
Fixpoint height (v : JsVal) : nat :=
  match v with
  | VArr items => S (foldr (fun x n => Nat.max (height x) n) 0 items)
  | VObj fields => S (foldr (fun kv n => Nat.max (height kv.2) n) 0 fields)
  | _ => 1
  end.

Definition extractPointsFromGeoJSON (geojson : JsVal) : list LatLng :=
  extractPoints_fuel (height geojson) geojson.

End GeometryExtractor.

(** ** Records, roles and mappings *)

Definition Name : string := "Name".
Definition Longitude : string := "Longitude".
Definition GeoJSON : string := "GeoJSON".
Definition Latitude : string := "Latitude".
Definition Geocode : string := "Geocode".
Definition Address : string := "Address".
Definition GeocodedAddress : string := "GeocodedAddress".
Definition Style : string := "Style".
Definition Layer : string := "Layer".
Definition Popup : string := "Popup".
Definition Label : string := "Label".
Definition LabelStyle : string := "LabelStyle".

(** A host row: its integer row id ([record.id]) and its other fields. *)
Record Rec := mkRec {
  rec_id : Z;
  cells : gmap string JsVal
}.

(** [record[k]] *)
Definition cell (record : Rec) (k : string) : JsVal :=
  default VUndef (cells record !! k).

(** [k in record] *)
Definition has_cell (k : string) (record : Rec) : bool :=
  bool_decide (is_Some (cells record !! k)).

(** [record[k] = v] *)
Definition set_cell (k : string) (v : JsVal) (record : Rec) : Rec :=
  mkRec (rec_id record) (<[k := v]> (cells record)).

(** [mappings[k]] and [k in mappings] for a mappings object. *)
Definition mapping (mappings : gmap string JsVal) (k : string) : JsVal :=
  default VUndef (mappings !! k).

Definition has_mapping (k : string) (mappings : gmap string JsVal) : bool :=
  bool_decide (is_Some (mappings !! k)).

(** ** GeocodingScanner: [geocode], [scan], [scanOnNeed] *)

(** What the scanner does to the outside world, in order. *)
Inductive Event :=
| EvGeocode (address : JsVal)
| EvUpdateRecord (tableId : string) (rowId : Z) (fields : gmap string JsVal)
| EvDelay (ms : Z).

(** The outside world: the geocoder's answer and the outcome of the host
    write, each as a function of everything that happened up to and
    including the request.  [Throw] is a rejected promise. *)
Record Env := {
  geocoder_geocode : list Event -> Res JsVal;
  applyUserActions : list Event -> Res unit
}.

(** How the body of the [for] loop ends for one record. *)
Inductive Ctrl :=
| Next
| Break
| Raise (e : JsError).

Section GeocodingScanner.
Context `{JsHost}.
Variable env : Env.

Definition geocode (tr : list Event) (address : JsVal) : list Event * Res JsVal :=
  let tr' := tr ++ [EvGeocode address] in
  (tr',
   results ← geocoder_geocode env tr';
   v ← get_idx results 0;
   if truthy v then get_prop v "center" else Ok v).

(** [result?.k ?? null] *)
Definition opt_prop_or_null (result : JsVal) (k : string) : JsVal :=
  if nullish result then VNull
  else if nullish (prop result k) then VNull else prop result k.

(** The field update sent with [UpdateRecord]: the object literal of the
    source, later keys overriding earlier equal ones. *)
Definition update_fields (mappings : gmap string JsVal) (result address : JsVal)
    : Res (gmap string JsVal) :=
  kLng ← ToString (mapping mappings Longitude);
  kLat ← ToString (mapping mappings Latitude);
  let base := <[kLat := opt_prop_or_null result "lat"]>
                (<[kLng := opt_prop_or_null result "lng"]> ∅) in
  if has_mapping GeocodedAddress mappings && truthy (mapping mappings GeocodedAddress)
  then kCache ← ToString (mapping mappings GeocodedAddress);
       Ok (<[kCache := address]> base)
  else Ok base.

(** The record as the cache policy leaves it when the last geocoded address
    differs from the current one. *)
Definition clear_coordinates (record : Rec) : Rec :=
  set_cell GeoJSON VNull (set_cell Latitude VNull (set_cell Longitude VNull record)).

(** The cache policy: [inl] ends the iteration, [inr] is the (possibly
    cleared) record to go on with. *)
Definition cache_policy (record : Rec) : Ctrl + Rec :=
  if truthy (cell record GeocodedAddress) then
    match loose_eq (cell record GeocodedAddress) (cell record Address) with
    | Throw e => inl (Raise e)
    | Ok true => inl Next
    | Ok false => inr (clear_coordinates record)
    end
  else inr record.

(** The resolution step: geocode, write back, wait. *)
Definition resolve (tableId : string) (mappings : gmap string JsVal)
    (record : Rec) (address : JsVal) (tr : list Event) : list Event * Ctrl :=
  let (tr1, r) := geocode tr address in
  match r with
  | Throw e => (tr1, Raise e)
  | Ok result =>
      match update_fields mappings result address with
      | Throw e => (tr1, Raise e)
      | Ok fields =>
          let tr2 := tr1 ++ [EvUpdateRecord tableId (rec_id record) fields] in
          match applyUserActions env tr2 with
          | Throw e => (tr2, Raise e)
          | Ok _ => (tr2 ++ [EvDelay 1000], Next)
          end
      end
  end.

(** One iteration of the loop of [scan]: the record as mutated, the
    extended trace and how the iteration ends. *)
Definition scan_record (tableId : string) (mappings : gmap string JsVal)
    (record : Rec) (tr : list Event) : Rec * list Event * Ctrl :=
  if negb (has_cell Geocode record) then (record, tr, Break)
  else if negb (truthy (cell record Geocode)) then (record, tr, Next)
  else
    let address := cell record Address in
    match cache_policy record with
    | inl c => (record, tr, c)
    | inr record' =>
        if truthy address && negb (truthy (cell record' Longitude)) then
          let (tr', c) := resolve tableId mappings record' address tr in
          (record', tr', c)
        else (record', tr, Next)
    end.

(** The loop of [scan]: the batch as mutated, the trace, and whether the
    promise resolves or rejects. *)
Fixpoint scan_loop (tableId : string) (mappings : gmap string JsVal)
    (records : list Rec) (tr : list Event) : list Rec * list Event * Res unit :=
  match records with
  | [] => ([], tr, Ok ())
  | record :: rest =>
      match scan_record tableId mappings record tr with
      | (record', tr', Next) =>
          let '(rest', tr'', r) := scan_loop tableId mappings rest tr' in
          (record' :: rest', tr'', r)
      | (record', tr', Break) => (record' :: rest, tr', Ok ())
      | (record', tr', Raise e) => (record' :: rest, tr', Throw e)
      end
  end.

Definition scan (writeAccess : bool) (tableId : string) (records : list Rec)
    (mappings : gmap string JsVal) (tr : list Event)
    : list Rec * list Event * Res unit :=
  if negb writeAccess then (records, tr, Ok ())
  else scan_loop tableId mappings records tr.

(** The globals [scanOnNeed] reads and writes, with the trace of effects. *)
Record ScanState := mkScanState {
  writeAccess : bool;
  scanning : bool;
  selectedTableId : option string;
  selectedRecords : option (list Rec);
  trace : list Event
}.

(** [scanOnNeed], run until the scan promise settles: both the [then] and
    the [catch] handler reset [scanning], and the rejection goes no
    further.  The records of the batch are shared with the scan, which
    mutates them in place. *)
Definition scanOnNeed (mappings : gmap string JsVal) (st : ScanState) : ScanState :=
  match scanning st, selectedTableId st, selectedRecords st with
  | false, Some tableId, Some records =>
      let '(records', tr', _) :=
        scan (writeAccess st) tableId records mappings (trace st) in
      mkScanState (writeAccess st) false (selectedTableId st) (Some records') tr'
  | _, _, _ => st
  end.

End GeocodingScanner.

(** ** FeatureBuilder: [parseValue], [getInfo], [buildPopupContent] and the
    coordinate-mode pass of [updateMap] *)

Inductive Icon :=
| defaultIcon
| selectedIcon.

(** A Leaflet marker as the widget configures it.  [options_pane] is the
    [pane] option given at construction; [pane] is the own property that
    the selection functions assign later (absent until then). *)
Record Marker := mkMarker {
  latlng : LatLng;
  title : JsVal;
  marker_id : Z;
  icon : Icon;
  options_pane : string;
  pane : option string;
  popup : string
}.

(** [getInfo]'s result. *)
Module Info.
Record t := mk {
  id : Z;
  name : JsVal;
  lng : JsVal;
  lat : JsVal;
  geojson : JsVal;
  style : JsVal;
  layer : JsVal;
  label : JsVal;
  labelStyle : JsVal
}.
End Info.

(** What the coordinate pass builds: the bounds points, the markers added
    to the cluster group, and the popup index by row id. *)
Record Built := mkBuilt {
  built_points : list LatLng;
  built_markers : list Marker;
  built_popups : gmap Z Marker
}.

(** How [updateMap] ends in coordinate mode: with a problem message and
    nothing built, or with the features built. *)
Inductive Shown :=
| ShowProblem (txt : string)
| ShowMap (built : Built).

Definition dquote : string :=
  String (Ascii.Ascii false true false false false true false false) "".

Section FeatureBuilder.
Context `{JsHost}.

Definition parseValue (v : JsVal) : Res JsVal :=
  if is_object v && truthy (prop v "value") then
    match prop v "value" with
    | VStr value =>
        if String.prefix "V(" value then
          payload ← JSON_parse (String.substring 2 (String.length value - 1 - 2) value);
          remote ← get_prop payload "remote";
          if truthy remote then Ok remote else
          local ← get_prop payload "local";
          if truthy local then Ok local else
          parent ← get_prop payload "parent";
          if truthy parent then Ok parent else Ok payload
        else Ok v
    | _ => Throw TypeError
    end
  else Ok v.

Definition getInfo (rec : Rec) : Res Info.t :=
  name ← parseValue (cell rec Name);
  lng ← parseValue (cell rec Longitude);
  lat ← parseValue (cell rec Latitude);
  geojson ← parseValue (cell rec GeoJSON);
  style ← (if has_cell Style rec then parseValue (cell rec Style) else Ok VNull);
  layer ← (if has_cell Layer rec then parseValue (cell rec Layer) else Ok VNull);
  label ← (if has_cell Label rec then parseValue (cell rec Label) else Ok VNull);
  labelStyle ← (if has_cell LabelStyle rec then parseValue (cell rec LabelStyle) else Ok VNull);
  Ok (Info.mk (rec_id rec) name lng lat geojson style layer label labelStyle).

(** [rawRec[key]] on a raw host record, whose [id] is a field like others. *)
Definition raw_get (rawRec : Rec) (key : string) : JsVal :=
  if String.eqb key "id" then VInt (rec_id rawRec) else cell rawRec key.

(** [DOMPurify.sanitize(String(name || ''))] *)
Definition name_only (name : JsVal) : Res string :=
  s ← ToString (if truthy name then name else VStr "");
  Ok (DOMPurify_sanitize s).

(** The loop over the popup columns, appending to [html]. *)
Fixpoint popup_rows (rawRec : Rec) (colNames : list JsVal) (html : string) : Res string :=
  match colNames with
  | [] => Ok html
  | col :: rest =>
      key ← ToString col;
      val ← parseValue (raw_get rawRec key);
      if nullish val || is_str val "" then popup_rows rawRec rest html
      else
        sval ← ToString val;
        popup_rows rawRec rest
          (html +:+ "<br><em>" +:+ DOMPurify_sanitize key +:+ ":</em> "
                +:+ DOMPurify_sanitize sval)
  end.

(** [Array.isArray(popupMappings) ? popupMappings : [popupMappings]] *)
Definition popup_columns (m : gmap string JsVal) : list JsVal :=
  match mapping m Popup with
  | VArr items => items
  | v => [v]
  end.

Definition buildPopupContent (name : JsVal) (rawRec : option Rec)
    (mappings : option (gmap string JsVal)) : Res string :=
  match mappings, rawRec with
  | Some m, Some raw =>
      if has_mapping Popup m && truthy (mapping m Popup) then
        let colNames := popup_columns m in
        match colNames with
        | [] => name_only name
        | _ =>
            let html := "<div style=" +:+ dquote +:+ "max-width:300px" +:+ dquote +:+ ">" in
            html ← (if truthy name
                    then s ← ToString name;
                         Ok (html +:+ "<strong>" +:+ DOMPurify_sanitize s +:+ "</strong>")
                    else Ok html);
            html ← popup_rows raw colNames html;
            Ok (html +:+ "</div>")
        end
      else name_only name
  | _, _ => name_only name
  end.

(** [String(lng) === "..."] *)
Definition in_progress (lng : JsVal) : Res bool :=
  s ← ToString lng; Ok (String.eqb s "...").

(** [Math.abs(v) < 0.01] *)
Definition abs_below_tolerance (v : JsVal) : Res bool :=
  n ← ToNumber v;
  Ok match n with
     | NaN => false
     | Num q => negb (Qle_bool (1 # 100) (Qabs q))
     end.

(** The two tests of the loop that skip a record. *)
Definition skipped (info : Info.t) : Res bool :=
  sentinel ← in_progress (Info.lng info);
  if (sentinel : bool) then Ok true else
  a ← abs_below_tolerance (Info.lat info);
  if (a : bool) then abs_below_tolerance (Info.lng info) else Ok false.

(** The marker the loop creates for a record it does not skip. *)
Definition make_marker (selectedRowId : option Z)
    (rawRecordsById : gmap Z Rec) (mappings : option (gmap string JsVal))
    (info : Info.t) : Res Marker :=
  pt ← new_LatLng (Info.lat info) (Info.lng info);
  let sel := bool_decide (selectedRowId = Some (Info.id info)) in
  popupHtml ← buildPopupContent (Info.name info) (rawRecordsById !! Info.id info) mappings;
  Ok (mkMarker pt (Info.name info) (Info.id info)
        (if sel then selectedIcon else defaultIcon)
        (if sel then "selectedMarker" else "otherMarkers")
        None popupHtml).

(** One iteration of the coordinate-mode loop of [updateMap]. *)
Definition pass_record (selectedRowId : option Z)
    (rawRecordsById : gmap Z Rec) (mappings : option (gmap string JsVal))
    (rec : Rec) (b : Built) : Res Built :=
  info ← getInfo rec;
  skip ← skipped info;
  if (skip : bool) then Ok b else
  marker ← make_marker selectedRowId rawRecordsById mappings info;
  Ok (mkBuilt (built_points b ++ [latlng marker])
              (built_markers b ++ [marker])
              (<[Info.id info := marker]> (built_popups b))).

Fixpoint pass_loop (selectedRowId : option Z)
    (rawRecordsById : gmap Z Rec) (mappings : option (gmap string JsVal))
    (data : list Rec) (b : Built) : Res Built :=
  match data with
  | [] => Ok b
  | rec :: rest =>
      b' ← pass_record selectedRowId rawRecordsById mappings rec b;
      pass_loop selectedRowId rawRecordsById mappings rest b'
  end.

(** [mappings && GeoJSON in mappings && mappings[GeoJSON]], as a truth
    value: [updateMap] is in coordinate mode when it is false. *)
Definition isGeoJSONMode (mappings : option (gmap string JsVal)) : bool :=
  match mappings with
  | Some m => has_mapping GeoJSON m && truthy (mapping m GeoJSON)
  | None => false
  end.

(** The test of [updateMap] on the first record of a non-empty batch:
    [Longitude in data[0] && Latitude in data[0] && Name in data[0]]. *)
Definition has_expected_columns (data : list Rec) : bool :=
  match data with
  | [] => false
  | first :: _ =>
      has_cell Longitude first && has_cell Latitude first && has_cell Name first
  end.

(** [updateMap] on the batch [data] (its argument, or [selectedRecords]
    when the argument is falsy) in coordinate mode, that is, for mappings
    on which [isGeoJSONMode] is false: an empty batch and a first record
    without the expected fields end it with [showProblem] before anything
    is built; otherwise [points], the cluster group and [popups] start
    empty and the loop fills them. *)
Definition coordinate_pass (selectedRowId : option Z)
    (rawRecordsById : gmap Z Rec) (mappings : option (gmap string JsVal))
    (data : list Rec) : Res Shown :=
  match data with
  | [] => Ok (ShowProblem "No data found yet")
  | _ :: _ =>
      if has_expected_columns data then
        built ← pass_loop selectedRowId rawRecordsById mappings data (mkBuilt [] [] ∅);
        Ok (ShowMap built)
      else
        Ok (ShowProblem
              ("Table does not yet have all expected columns: Name, Longitude, Latitude. You can map custom columns"
               +:+ " in the Creator Panel."))
  end.

End FeatureBuilder.

(** ** SelectionCoordinator: [selectMaker], [selectGeoJSONFeature],
    [selectOnMap] *)

(** A sublayer of an [L.geoJSON] layer: a vector path with its style
    options, or a point marker with its icon and pane. *)
Inductive Sublayer :=
| SubPath (options : gmap string JsVal)
| SubMarker (sub_icon : Icon) (sub_pane : string).

(** The restyle and host calls the selection functions make, in order. *)
Inductive Call :=
| SetIcon (rowId : Z) (i : Icon)
| SetPane (rowId : Z) (p : string)
| SetStyle (rowId : Z) (style : gmap string JsVal)
| RefreshClusters
| SetCursorPos (rowId : Z).

(** The globals of the selection functions.  [popups] is the marker index
    the coordinate pass builds; [geoJSONLayers] and [geoJSONStyles] are the
    GeoJSON-mode indexes.  Each feature object is reachable for restyling
    only through its index entry, so the entry stands for the object. *)
Record MapState := mkMapState {
  selectedRowId : option Z;
  popups : gmap Z Marker;
  geoJSONLayers : gmap Z (list Sublayer);
  geoJSONStyles : gmap Z (gmap string JsVal);
  calls : list Call
}.

(** [marker.setIcon(i); marker.pane = p] *)
Definition restyle_marker (i : Icon) (p : string) (m : Marker) : Marker :=
  mkMarker (latlng m) (title m) (marker_id m) i (options_pane m) (Some p) (popup m).

Definition opacity_03 : JsVal := VNum (Num (3 # 10)).
Definition opacity_06 : JsVal := VNum (Num (6 # 10)).

(** [Object.assign({opacity: o, fillOpacity: o}, custom)] *)
Definition assign_opacity (o : JsVal) (custom : gmap string JsVal) : gmap string JsVal :=
  custom ∪ <["fillOpacity" := o]> (<["opacity" := o]> ∅).

(** Leaflet's [layer.setStyle(style)] on a GeoJSON layer: the style is
    merged into the options of every path sublayer. *)
Definition setStyle (style : gmap string JsVal) (layer : list Sublayer) : list Sublayer :=
  (fun sl => match sl with
             | SubPath options => SubPath (style ∪ options)
             | SubMarker _ _ => sl
             end) <$> layer.

(** [layer.eachLayer(l => { if (l.setIcon) l.setIcon(i) })] *)
Definition setIcons (i : Icon) (layer : list Sublayer) : list Sublayer :=
  (fun sl => match sl with
             | SubPath _ => sl
             | SubMarker _ p => SubMarker i p
             end) <$> layer.

Definition setIcon_calls (rowId : Z) (i : Icon) (layer : list Sublayer) : list Call :=
  omap (fun sl => match sl with
                  | SubPath _ => None
                  | SubMarker _ _ => Some (SetIcon rowId i)
                  end) layer.

(** The calls that change how a feature looks. *)
Definition is_restyle (c : Call) : bool :=
  match c with
  | SetIcon _ _ | SetPane _ _ | SetStyle _ _ => true
  | RefreshClusters | SetCursorPos _ => false
  end.

Definition restyle_calls (st : MapState) : list Call :=
  List.filter is_restyle (calls st).

(** The first half of [selectMaker]: reset the previously selected marker. *)
Definition reset_previous_marker (st : MapState) : MapState :=
  match selectedRowId st with
  | Some sel =>
      match popups st !! sel with
      | Some previouslyClicked =>
          mkMapState (selectedRowId st)
            (<[sel := restyle_marker defaultIcon "otherMarkers" previouslyClicked]> (popups st))
            (geoJSONLayers st) (geoJSONStyles st)
            (calls st ++ [SetIcon sel defaultIcon; SetPane sel "otherMarkers"])
      | None => st
      end
  | None => st
  end.

Definition selectMaker (id : Z) (st : MapState) : option Marker * MapState :=
  let st1 := reset_previous_marker st in
  match popups st1 !! id with
  | None => (None, st1)
  | Some marker =>
      let marker' := restyle_marker selectedIcon "selectedMarker" marker in
      (Some marker',
       mkMapState (Some id) (<[id := marker']> (popups st1))
         (geoJSONLayers st1) (geoJSONStyles st1)
         (calls st1 ++ [SetIcon id selectedIcon; SetPane id "selectedMarker";
                        RefreshClusters; SetCursorPos id]))
  end.

(** [geoJSONStyles[id] || {}] *)
Definition style_of (st : MapState) (id : Z) : gmap string JsVal :=
  default ∅ (geoJSONStyles st !! id).

(** The first half of [selectGeoJSONFeature]: reset the previously
    selected layer. *)
Definition reset_previous_layer (st : MapState) : MapState :=
  match selectedRowId st with
  | Some sel =>
      match geoJSONLayers st !! sel with
      | Some previouslyClicked =>
          let style := assign_opacity opacity_03 (style_of st sel) in
          mkMapState (selectedRowId st) (popups st)
            (<[sel := setIcons defaultIcon (setStyle style previouslyClicked)]>
               (geoJSONLayers st))
            (geoJSONStyles st)
            (calls st ++ SetStyle sel style
                      :: setIcon_calls sel defaultIcon previouslyClicked)
      | None => st
      end
  | None => st
  end.

Definition selectGeoJSONFeature (id : Z) (st : MapState)
    : option (list Sublayer) * MapState :=
  let st1 := reset_previous_layer st in
  match geoJSONLayers st1 !! id with
  | None => (None, st1)
  | Some layer =>
      let style := assign_opacity opacity_06 (style_of st1 id) in
      let layer' := setIcons selectedIcon (setStyle style layer) in
      (Some layer',
       mkMapState (Some id) (popups st1)
         (<[id := layer']> (geoJSONLayers st1)) (geoJSONStyles st1)
         (calls st1 ++ SetStyle id style :: setIcon_calls id selectedIcon layer
                    ++ [SetCursorPos id]))
  end.

(** [selectOnMap]; the rebuild by [updateMap] is a parameter. *)
Definition selectOnMap
    (updateMap : option (list Rec) -> option (gmap string JsVal) -> MapState -> MapState)
    (mode : string) (rec : Rec) (mappings : option (gmap string JsVal))
    (st : MapState) : MapState :=
  if bool_decide (selectedRowId st = Some (rec_id rec)) then st
  else
    let st1 := mkMapState (Some (rec_id rec)) (popups st) (geoJSONLayers st)
                 (geoJSONStyles st) (calls st) in
    if String.eqb mode "single" then updateMap (Some [rec]) mappings st1
    else updateMap None mappings st1.

(** ** Legacy mappings: [hasCol], [defaultMapping] *)

(** [hasCol(col, anything)] as a truth value; [anything] is a record or
    undefined. *)
Definition hasCol (col : string) (anything : option Rec) : bool :=
  match anything with
  | Some record => has_cell col record
  | None => false
  end.

Definition defaultMapping (record : option Rec)
    (mappings : option (gmap string JsVal)) : gmap string JsVal :=
  match mappings with
  | Some m => m
  | None =>
      let optional (k : string) := if hasCol k record then VStr k else VNull in
      <[LabelStyle := optional LabelStyle]>
        (<[Label := optional Label]>
           (<[Popup := optional Popup]>
              (<[Layer := optional Layer]>
                 (<[Style := optional Style]>
                    (<[Geocode := optional Geocode]>
                       (<[GeocodedAddress := optional GeocodedAddress]>
                          (<[Address := optional Address]>
                             (<[GeoJSON := optional GeoJSON]>
                                (<[Latitude := VStr Latitude]>
                                   (<[Name := VStr Name]>
                                      (<[Longitude := VStr Longitude]> ∅)))))))))))
  end.

(** ** Cluster badges: [selectedRowClusterIconFactory] *)

(** A marker cluster as the factory sees it: its child count and its child
    markers, each marker object standing under a reference;
    [getAllChildMarkers] is called inside the [try] and may fail. *)
Record Cluster := mkCluster {
  getChildCount : nat;
  getAllChildMarkers : Res (list nat)
}.

Record DivIcon := mkDivIcon {
  div_html : string;
  className : string;
  iconSize : nat * nat
}.

(** The factory applied to the getter's outcome ([Throw] when the getter
    raises, [Ok None] when it returns undefined) and to a cluster. *)
Definition selectedRowClusterIconFactory (selectedMarkerGetter : Res (option nat))
    (cluster : Cluster) : DivIcon :=
  let childCount := getChildCount cluster in
  let isSelected :=
    match (selectedMarker ← selectedMarkerGetter;
           children ← getAllChildMarkers cluster;
           Ok (match selectedMarker with
               | Some m => negb (Nat.eqb (length (List.filter (Nat.eqb m) children)) 0)
               | None => false
               end)) with
    | Ok b => b
    | Throw _ => false
    end in
  let c := " marker-cluster-" +:+
           (if childCount <? 10 then "small"
            else if childCount <? 100 then "medium" else "large") in
  mkDivIcon
    ("<div><span>" +:+ pretty childCount +:+ " <span aria-label=" +:+ dquote
       +:+ "markers" +:+ dquote +:+ "></span>" +:+ "</span></div>")
    ("marker-cluster" +:+ c +:+ (if isSelected then " marker-cluster-selected" else ""))
    (40, 40).

(** ** Grouped layer control: [_updateGroupCb] and the checkbox handlers *)

(** A child entry of a group: its checkbox and whether its layer is on the
    map.  The layers of a group are distinct objects ([updateMap] creates
    one per group name), so adding or removing one leaves the others where
    they are. *)
Record ChildItem := mkChildItem {
  input_checked : bool;
  layer_on_map : bool
}.

Record GroupBox := mkGroupBox {
  group_checked : bool;
  group_indeterminate : bool;
  childItems : list ChildItem
}.

(** [_updateGroupCb]: the new [checked] and [indeterminate] of the group
    checkbox. *)
Definition updateGroupCb (items : list ChildItem) : bool * bool :=
  let allChecked := forallb input_checked items in
  let someChecked := existsb input_checked items in
  (allChecked, someChecked && negb allChecked).

(** The change handler of child [i], after the browser set its checkbox to
    [checked]. *)
Definition child_change (i : nat) (checked : bool) (g : GroupBox) : GroupBox :=
  let items := alter (fun _ => mkChildItem checked checked) i (childItems g) in
  let '(c, ind) := updateGroupCb items in
  mkGroupBox c ind items.

(** The change handler of the group checkbox, after the browser set it to
    [checked]. *)
Definition group_change (checked : bool) (g : GroupBox) : GroupBox :=
  mkGroupBox checked false
    ((fun _ => mkChildItem checked checked) <$> childItems g).

(** ** Layer control: [addLayerControl] *)

Inductive LayerControl (L : Type) :=
| NoControl
| GroupedControl (groups : gmap string (gmap string L)) (overlays : gmap string L)
| FlatControl (overlays : gmap string L).
Arguments NoControl {L}.
Arguments GroupedControl {L} groups overlays.
Arguments FlatControl {L} overlays.

(** [addLayerControl], returning the control it adds to the map;
    [isLayerMode] is the truth value of the flag.  The overlay objects are
    maps from names to layers; the order of their keys, which only orders
    the rows of the control, is not kept, and the name [__proto__], which
    an assignment does not store as an entry, is outside the model. *)
Definition addLayerControl {L : Type} (mainLayerGroups additionalLayerGroups : gmap string L)
    (isLayerMode : bool) (layerGroupName : string) : LayerControl L :=
  let allOverlays := additionalLayerGroups ∪ mainLayerGroups in
  let totalCount := size allOverlays in
  if totalCount <=? 1 then NoControl
  else if isLayerMode && (1 <? size mainLayerGroups)
  then GroupedControl {[layerGroupName := mainLayerGroups]} additionalLayerGroups
  else FlatControl allOverlays.

(** ** Column labels: [getColumnLabel] *)

Section ColumnLabel.
Context `{JsHost}.

(** The body of the loop over the column table, for the indexes still to
    visit; [None] when the loop ends without returning. *)
Fixpoint label_loop (colData : JsVal) (colId : string) (idxs : list nat)
    : Res (option JsVal) :=
  match idxs with
  | [] => Ok None
  | i :: rest =>
      colIds ← get_prop colData "colId";
      c ← get_idx colIds i;
      if is_str c colId then
        labels ← get_prop colData "label";
        l ← get_idx labels i;
        Ok (Some (if truthy l then l else VStr colId))
      else label_loop colData colId rest
  end.

(** [getColumnLabel(colId)]; [fetchTable] is the outcome of
    [grist.docApi.fetchTable] for a table id. *)
Definition getColumnLabel (fetchTable : string -> Res JsVal) (colId : string) : JsVal :=
  match (colData ← fetchTable "_grist_Tables_column";
         ids ← get_prop colData "id";
         len ← get_prop ids "length";
         n ← ToNumber len;
         label_loop colData colId (seq 0 (loop_count n))) with
  | Ok (Some label) => label
  | Ok None | Throw _ => VStr colId
  end.

End ColumnLabel.

(** ** Deselection: [clearPopupMarker] and the new-record handler *)



(** ** Auxiliary layers: [fetchAdditionalLayers] *)

(** An entry of [features] and an entry of [results]. *)
Record LayerFeature := mkLayerFeature {
  feature_geojson : JsVal;
  feature_name : JsVal;
  feature_style : JsVal
}.

Record AdditionalLayer := mkAdditionalLayer {
  layerName : JsVal;
  layer_order : JsVal;
  layer_interactive : bool;
  layer_features : list LayerFeature
}.

Section AdditionalLayers.
Context `{JsHost}.

(** The outcome of [grist.docApi.fetchTable(table)], given the tables
    fetched before. *)
Variable fetchTable : list JsVal -> JsVal -> Res JsVal.

(** [typeof raw === 'string' ? JSON.parse(raw) : raw] *)
Definition parse_if_string (raw : JsVal) : Res JsVal :=
  match raw with
  | VStr text => JSON_parse text
  | _ => Ok raw
  end.

(** [tableData[col] ? tableData[col][i] : null].  [tableData] has passed
    the test on its [id] entry, so it is a plain object, and [col] is the
    name of a column, not of a built-in member. *)
Definition column_cell (tableData col : JsVal) (i : nat) : Res JsVal :=
  key ← ToString col;
  column ← get_prop tableData key;
  if truthy column then get_idx column i else Ok VNull.

(** The style of row [i]: [{}] unless the style cell holds something
    usable. *)
Definition row_style (tableData styleCol : JsVal) (i : nat) : Res JsVal :=
  if truthy styleCol then
    key ← ToString styleCol;
    column ← get_prop tableData key;
    if truthy column then
      styleRaw ← get_idx column i;
      if truthy styleRaw then
        Ok match parse_if_string styleRaw with
           | Ok style => style
           | Throw _ => VObj []
           end
      else Ok (VObj [])
    else Ok (VObj [])
  else Ok (VObj []).

(** One iteration of the loop over the rows: the feature pushed, if any. *)
Definition layer_row (tableData geojsonCol nameCol styleCol : JsVal) (i : nat)
    : Res (option LayerFeature) :=
  geojsonRaw ← column_cell tableData geojsonCol i;
  if truthy geojsonRaw then
    match parse_if_string geojsonRaw with
    | Throw _ => Ok None
    | Ok parsedGeoJSON =>
        style ← row_style tableData styleCol i;
        name ← (if truthy nameCol then column_cell tableData nameCol i else Ok VNull);
        Ok (Some (mkLayerFeature parsedGeoJSON name style))
    end
  else Ok None.

Fixpoint layer_rows (tableData geojsonCol nameCol styleCol : JsVal) (idxs : list nat)
    (features : list LayerFeature) : Res (list LayerFeature) :=
  match idxs with
  | [] => Ok features
  | i :: rest =>
      row ← layer_row tableData geojsonCol nameCol styleCol i;
      layer_rows tableData geojsonCol nameCol styleCol rest
        (match row with
         | Some feature => features ++ [feature]
         | None => features
         end)
  end.

(** [config.interactive !== false] *)
Definition not_false (v : JsVal) : bool :=
  match v with
  | VBool false => false
  | _ => true
  end.

(** The body of the [try] once the table has arrived: the entry pushed
    onto [results], if any. *)
Definition layer_of_table (config tableData : JsVal) : Res (option AdditionalLayer) :=
  if truthy tableData then
    ids ← get_prop tableData "id";
    if truthy ids then
      columns ← get_prop config "columns";
      geojsonCol ← get_prop columns "GeoJSON";
      nameCol ← get_prop columns "Name";
      styleCol ← get_prop columns "Style";
      len ← get_prop ids "length";
      n ← ToNumber len;
      features ← layer_rows tableData geojsonCol nameCol styleCol
                   (seq 0 (loop_count n)) [];
      layer ← get_prop config "layer";
      table ← get_prop config "table";
      order ← get_prop config "order";
      interactive ← get_prop config "interactive";
      Ok (Some (mkAdditionalLayer (if truthy layer then layer else table)
                  (if nullish order then VInt 0 else order)
                  (not_false interactive) features))
    else Ok None
  else Ok None.

(** The test that lets a configuration through to the fetch. *)
Definition config_usable (config : JsVal) : Res bool :=
  table ← get_prop config "table";
  if truthy table then
    columns ← get_prop config "columns";
    if truthy columns then
      geojsonCol ← get_prop columns "GeoJSON";
      Ok (truthy geojsonCol)
    else Ok false
  else Ok false.

(** The loop over the configurations.  [fetched] lists the tables
    requested so far; an exception of the body, from the fetch or from
    the pivot, is caught and leaves [results] as it was. *)
Fixpoint layers_loop (configs : list JsVal) (fetched : list JsVal)
    (results : list AdditionalLayer) : list JsVal * Res (list AdditionalLayer) :=
  match configs with
  | [] => (fetched, Ok results)
  | config :: rest =>
      match config_usable config with
      | Throw e => (fetched, Throw e)
      | Ok false => layers_loop rest fetched results
      | Ok true =>
          let table := prop config "table" in
          layers_loop rest (fetched ++ [table])
            (match (tableData ← fetchTable fetched table;
                    layer_of_table config tableData) with
             | Ok (Some layer) => results ++ [layer]
             | Ok None | Throw _ => results
             end)
      end
  end.

(** [x === 0] *)
Definition is_zero (v : JsVal) : bool :=
  match v with
  | VNum (Num q) => Qeq_bool q 0
  | _ => false
  end.

(** The values a [for ... of] visits; only arrays and strings are
    iterable among the values modelled. *)
Definition iterate (v : JsVal) : Res (list JsVal) :=
  match v with
  | VArr items => Ok items
  | VStr text => Ok (chars text)
  | _ => Throw TypeError
  end.

(** [fetchAdditionalLayers], on the value of [additionalLayersConfig]:
    the tables requested, in order, and the layers or the exception that
    rejects the promise. *)
Definition fetchAdditionalLayers (additionalLayersConfig : JsVal)
    : list JsVal * Res (list AdditionalLayer) :=
  if truthy additionalLayersConfig then
    if is_zero (prop additionalLayersConfig "length") then ([], Ok [])
    else
      match iterate additionalLayersConfig with
      | Ok configs => layers_loop configs [] []
      | Throw e => ([], Throw e)
      end
  else ([], Ok []).

End AdditionalLayers.

(** ** Options: the [grist.onOptions] handler *)

(** The globals the handler reads and assigns. *)
Record Settings := mkSettings {
  opt_writeAccess : bool;
  opt_mode : JsVal;
  opt_mapSource : JsVal;
  opt_mapCopyright : JsVal;
  opt_additionalLayersConfig : JsVal;
  opt_lastRecords : JsVal
}.

(** What the handler does besides assigning globals, in order. *)
Inductive OptionEffect :=
| UpdateMode
| SetValue (element : string) (value : JsVal).

Section Options.
Context `{JsHost}.

(** Whether [updateMode()] returns; whether the assignment
    [document.getElementById(element).value = value] completes; and
    [JSON.stringify(value, null, 2)]. *)
Variable updateMode : Res unit.
Variable set_value : string -> JsVal -> Res unit.
Variable JSON_stringify : JsVal -> Res JsVal.

(** [options?.key] *)
Definition optional_prop (options : JsVal) (key : string) : JsVal :=
  if nullish options then VUndef else prop options key.

(** [options?.key ?? current] *)
Definition option_or (options : JsVal) (key : string) (current : JsVal) : JsVal :=
  if nullish (optional_prop options key) then current else optional_prop options key.

(** [len > 0] *)
Definition positive (len : JsVal) : Res bool :=
  n ← ToNumber len;
  Ok match n with
     | NaN => false
     | Num q => negb (Qle_bool q 0)
     end.

(** The configuration after the [try] around [JSON.parse(layersJson)]. *)
Definition parsed_layers (layersJson current : JsVal) : JsVal :=
  if truthy layersJson then
    match (text ← ToString layersJson; JSON_parse text) with
    | Ok config => config
    | Throw _ => current
    end
  else current.

(** The handler: the globals and the effects when it ends, and the
    exception that ended it, if any. *)
Definition onOptions (options interaction : JsVal) (st : Settings)
    : Settings * list OptionEffect * Res unit :=
  match get_prop interaction "accessLevel" with
  | Throw e => (st, [], Throw e)
  | Ok accessLevel =>
  let newMode := option_or options "mode" (opt_mode st) in
  let st := mkSettings (is_str accessLevel "full") newMode (opt_mapSource st)
              (opt_mapCopyright st) (opt_additionalLayersConfig st)
              (opt_lastRecords st) in
  match loose_eq newMode (opt_mode st) with
  | Throw e => (st, [], Throw e)
  | Ok same =>
  let rerender := negb same && truthy (opt_lastRecords st) in
  let log := if rerender then [UpdateMode] else [] in
  match (if rerender then updateMode else Ok ()) with
  | Throw e => (st, log, Throw e)
  | Ok _ =>
  let newSource := option_or options "mapSource" (opt_mapSource st) in
  let st := mkSettings (opt_writeAccess st) (opt_mode st) newSource
              (opt_mapCopyright st) (opt_additionalLayersConfig st)
              (opt_lastRecords st) in
  let log := log ++ [SetValue "mapSource" newSource] in
  match set_value "mapSource" newSource with
  | Throw e => (st, log, Throw e)
  | Ok _ =>
  let newCopyright := option_or options "mapCopyright" (opt_mapCopyright st) in
  let st := mkSettings (opt_writeAccess st) (opt_mode st) (opt_mapSource st)
              newCopyright (opt_additionalLayersConfig st) (opt_lastRecords st) in
  let log := log ++ [SetValue "mapCopyright" newCopyright] in
  match set_value "mapCopyright" newCopyright with
  | Throw e => (st, log, Throw e)
  | Ok _ =>
  let config := parsed_layers (optional_prop options "additionalLayers")
                  (opt_additionalLayersConfig st) in
  let st := mkSettings (opt_writeAccess st) (opt_mode st) (opt_mapSource st)
              (opt_mapCopyright st) config (opt_lastRecords st) in
  match (len ← get_prop config "length";
         filled ← positive len;
         if (filled : bool) then JSON_stringify config else Ok (VStr "")) with
  | Throw e => (st, log, Throw e)
  | Ok text =>
      (st, log ++ [SetValue "additionalLayers" text],
       set_value "additionalLayers" text)
  end end end end end end.

End Options.

(** ** A concrete host for running the model on examples

    Strings of decimal digits convert to the integer they denote (the empty
    string to 0, anything else to NaN), integers print in decimal,
    [JSON.parse] rejects its input, distinct object values are distinct
    references and the sanitizer is the identity. *)

Fixpoint digits_value (s : string) (acc : N) : option N :=
  match s with
  | EmptyString => Some acc
  | String c rest =>
      let n := Ascii.N_of_ascii c in
      if ((48 <=? n) && (n <=? 57))%N
      then digits_value rest (acc * 10 + (n - 48))%N
      else None
  end.

Definition sample_StringToNumber (s : string) : JsNum :=
  match digits_value s 0 with
  | Some n => Num (inject_Z (Z.of_N n))
  | None => NaN
  end.

Definition sample_NumberToString (n : JsNum) : string :=
  match n with
  | NaN => "NaN"
  | Num q =>
      if Pos.eqb (Qden q) 1 then pretty (Qnum q)
      else pretty (Qnum q) +:+ "/" +:+ pretty (Zpos (Qden q))
  end.

Definition sample_host : JsHost := {|
  StringToNumber := sample_StringToNumber;
  NumberToString := sample_NumberToString;
  JSON_parse := fun _ => Throw SyntaxError;
  same_object := fun _ _ => false;
  DOMPurify_sanitize := fun s => s
|}.

(** * Vocabulary of the statements *)

(** A value is within the fuel [n] when it is a primitive or its nesting
    height is at most [n]. *)
Definition fits (n : nat) (v : JsVal) : Prop :=
  is_object v = false ∨ height v ≤ n.

(** A well-formed GeoJSON position [[lng, lat, ...]] and its point. *)
Inductive is_position : JsVal -> LatLng -> Prop :=
| is_position_intro (x y : Q) (more : list JsVal) :
    is_position (VArr (VNum (Num x) :: VNum (Num y) :: more))
                (mkLatLng (Num y) (Num x)).

(** A well-formed ring (or line): an array of positions. *)
Definition ring_points (ring : JsVal) (pts : list LatLng) : Prop :=
  ∃ positions, ring = VArr positions ∧ Forall2 is_position positions pts.

Definition ring_length (ring : JsVal) : nat :=
  match ring with
  | VArr positions => length positions
  | _ => 0
  end.

(** The extractor reaches the coordinate descent of [geojson] at nesting
    depth [depth] on the coordinates [coords]. *)
Definition descends `{JsHost} (geojson : JsVal) (depth : nat) (coords : JsVal) : Prop :=
  truthy geojson = true ∧
  truthy (prop geojson "type") = true ∧
  truthy (geometry_of geojson) = true ∧
  coords = prop (geometry_of geojson) "coordinates" ∧
  truthy coords = true ∧
  ∃ key, ToString (prop (geometry_of geojson) "type") = Ok key ∧
         depthMap key = Some depth.

(** The reading under which a raise during the descent discards the points
    accumulated before it. *)
Definition raise_yields_empty : Prop :=
  ∀ (H : JsHost) geojson depth coords pts e,
    descends geojson depth coords →
    extractCoordinates depth coords [] = (pts, Throw e) →
    extractPointsFromGeoJSON geojson = [].

(** Sample geometries. *)
Definition sample_position (x y : Z) : JsVal := VArr [VInt x; VInt y].

Definition sample_point : JsVal :=
  VObj [("type", VStr "Point"); ("coordinates", sample_position 1 2)].

Definition sample_collection : JsVal :=
  VObj [("type", VStr "GeometryCollection"); ("geometries", VArr [sample_point])].

Definition sample_collection_with_coordinates : JsVal :=
  VObj [("type", VStr "GeometryCollection"); ("coordinates", VInt 1);
        ("geometries", VArr [sample_point])].

Definition sample_broken_line : JsVal :=
  VObj [("type", VStr "LineString");
        ("coordinates", VArr [sample_position 1 2; VNull; sample_position 3 4])].

Definition sample_unknown : JsVal :=
  VObj [("type", VStr "Circle"); ("coordinates", sample_position 1 2)].

(** The reading under which a failed resolution of one record leaves the
    rest of the batch to be scanned: the effects of the scan are those of
    going on with the remaining records after the failure. *)
Definition scan_survives_errors : Prop :=
  ∀ (H : JsHost) env tableId mappings record rest tr record' tr' e,
    scan_record env tableId mappings record tr = (record', tr', Raise e) →
    (scan_loop env tableId mappings (record :: rest) tr).1.2
    = (scan_loop env tableId mappings rest tr').1.2.

Section ScanVocabulary.
Context `{JsHost}.

(** The record is due for resolution, as [record']: it is flagged and has
    an address, and either it has no cached address and no longitude and
    goes on as it is, or it has a cached address that differs from the
    address and goes on with its coordinates cleared. *)
Definition awaits_resolution (record record' : Rec) : Prop :=
  has_cell Geocode record = true ∧ truthy (cell record Geocode) = true ∧
  truthy (cell record Address) = true ∧
  ((truthy (cell record GeocodedAddress) = false ∧
    truthy (cell record Longitude) = false ∧ record' = record) ∨
   (truthy (cell record GeocodedAddress) = true ∧
    loose_eq (cell record GeocodedAddress) (cell record Address) = Ok false ∧
    record' = clear_coordinates record)).

(** The scan of [batch] from the trace [tr0] ends with the records
    [stopped] and the trace [tr'], rejecting with [e]; [scanOnNeed]
    swallows the rejection and resets the in-flight flag. *)
Definition scan_ends_with (env : Env) (tableId : string) (mappings : gmap string JsVal)
    (batch : list Rec) (tr0 : list Event) (stopped : list Rec) (tr' : list Event)
    (e : JsError) : Prop :=
  scan_loop env tableId mappings batch tr0 = (stopped, tr', Throw e) ∧
  scanOnNeed env mappings (mkScanState true false (Some tableId) (Some batch) tr0)
  = mkScanState true false (Some tableId) (Some stopped) tr'.

End ScanVocabulary.

(** A geocoder that answers, with a host that rejects every write. *)
Definition sample_env_write_fails : Env := {|
  geocoder_geocode := fun _ =>
    Ok (VArr [VObj [("center", VObj [("lat", VInt 46); ("lng", VInt 7)])]]);
  applyUserActions := fun _ => Throw Rejected
|}.

(** Sample batch for the scanner: a geocoder that answers every request
    with one hit, one that rejects its first request, and records in the
    states the cache policy distinguishes. *)
Definition sample_hit : JsVal :=
  VArr [VObj [("center", VObj [("lat", VInt 46); ("lng", VInt 7)])]].

Definition sample_env : Env := {|
  geocoder_geocode := fun _ => Ok sample_hit;
  applyUserActions := fun _ => Ok ()
|}.

Definition sample_env_first_fails : Env := {|
  geocoder_geocode := fun tr =>
    match tr with
    | [_] => Throw Rejected
    | _ => Ok sample_hit
    end;
  applyUserActions := fun _ => Ok ()
|}.

Definition sample_mappings : gmap string JsVal :=
  list_to_map [("Longitude", VStr "Lon"); ("Latitude", VStr "Lat");
               ("GeocodedAddress", VStr "Cache")].

Definition sample_pending (rowId : Z) (address : string) : Rec :=
  mkRec rowId (list_to_map [("Geocode", VBool true); ("Address", VStr address);
                            ("Longitude", VNull); ("Latitude", VNull)]).

Definition sample_cached : Rec :=
  mkRec 3 (list_to_map [("Geocode", VBool true); ("Address", VStr "Bern");
                        ("GeocodedAddress", VStr "Bern");
                        ("Longitude", VNull); ("Latitude", VNull)]).

Definition sample_moved : Rec :=
  mkRec 4 (list_to_map [("Geocode", VBool true); ("Address", VStr "Basel");
                        ("GeocodedAddress", VStr "Bern");
                        ("Longitude", VInt 7); ("Latitude", VInt 46)]).

Definition sample_unflagged : Rec :=
  mkRec 5 (list_to_map [("Geocode", VBool false); ("Address", VStr "Chur");
                        ("Longitude", VNull); ("Latitude", VNull)]).

Definition sample_unmapped : Rec :=
  mkRec 6 (list_to_map [("Address", VStr "Sion");
                        ("Longitude", VNull); ("Latitude", VNull)]).

(** The coordinate pass: what the specification says of a record. *)

Section PassVocabulary.
Context `{JsHost}.







End PassVocabulary.




(** The scenario of the specification: a record at the origin, a record in
    the middle of geocoding, and a record at longitude 10, latitude 20. *)
Definition sample_named (rowId : Z) (name : string) (lng lat : JsVal) : Rec :=
  mkRec rowId (list_to_map [("Name", VStr name); ("Longitude", lng);
                            ("Latitude", lat)]).

Definition sample_data : list Rec :=
  [sample_named 1 "A" (VInt 0) (VInt 0);
   sample_named 2 "B" (VStr "...") (VInt 5);
   sample_named 3 "C" (VInt 10) (VInt 20)].

Definition sample_raw : gmap Z Rec :=
  list_to_map ((fun r => (rec_id r, r)) <$> sample_data).



(** The reading under which selecting the selected row again makes no
    restyle call at all, for the marker selection that clicks and the host
    cursor both go through. *)
Definition reselect_is_silent : Prop :=
  ∀ st id,
    selectedRowId st = Some id →
    restyle_calls (selectMaker id st).2 = restyle_calls st ∧
    selectedRowId (selectMaker id st).2 = selectedRowId st.

(** Sample map states: three markers, three layers, row 1 selected. *)
Definition sample_marker (rowId : Z) (i : Icon) (p : string) : Marker :=
  mkMarker (mkLatLng (Num (inject_Z rowId)) (Num (inject_Z rowId)))
    (VStr "m") rowId i p None "m".

Definition sample_layer (i : Icon) (p : string) (o : JsVal) : list Sublayer :=
  [SubPath (<["fillOpacity" := o]> (<["opacity" := o]> ∅)); SubMarker i p].

Definition sample_map : MapState :=
  mkMapState (Some 1%Z)
    (list_to_map [(1%Z, sample_marker 1 selectedIcon "selectedMarker");
                  (2%Z, sample_marker 2 defaultIcon "otherMarkers");
                  (3%Z, sample_marker 3 defaultIcon "otherMarkers")])
    (list_to_map [(1%Z, sample_layer selectedIcon "selectedMarker" opacity_06);
                  (2%Z, sample_layer defaultIcon "otherMarkers" opacity_03);
                  (3%Z, sample_layer defaultIcon "otherMarkers" opacity_03)])
    (list_to_map [(2%Z, {["color" := VStr "red"]})])
    [].

(** Coordinates nested [d] levels deep over well-formed positions, with the
    points of the positions in order. *)
Fixpoint well_nested (d : nat) (v : JsVal) (pts : list LatLng) : Prop :=
  match d with
  | 0 => ∃ p, is_position v p ∧ pts = [p]
  | S d' => ∃ items ptss,
      v = VArr items ∧ Forall2 (well_nested d') items ptss ∧ pts = concat ptss
  end.

Definition sample_multipolygon : JsVal :=
  VObj [("type", VStr "MultiPolygon");
        ("coordinates",
         VArr [VArr [VArr [sample_position 1 2; sample_position 3 4]];
               VArr [VArr [sample_position 5 6]; VArr []]])].

Definition sample_feature (geometry : JsVal) : JsVal :=
  VObj [("type", VStr "Feature"); ("properties", VNull); ("geometry", geometry)].

(** Rate limit of the geocoder: a request may be made only when a delay of
    at least one second has passed since the previous request ([ready]).
    [spaced ready tr] checks a trace, [ready_after ready tr] is the state
    it ends in. *)
Fixpoint spaced (ready : bool) (tr : list Event) : bool :=
  match tr with
  | [] => true
  | EvGeocode _ :: rest => ready && spaced false rest
  | EvUpdateRecord _ _ _ :: rest => spaced ready rest
  | EvDelay ms :: rest => spaced (ready || (1000 <=? ms)%Z) rest
  end.

Fixpoint ready_after (ready : bool) (tr : list Event) : bool :=
  match tr with
  | [] => ready
  | EvGeocode _ :: rest => ready_after false rest
  | EvUpdateRecord _ _ _ :: rest => ready_after ready rest
  | EvDelay ms :: rest => ready_after (ready || (1000 <=? ms)%Z) rest
  end.

(** An effect that concerns the batch being scanned: a request for the
    non-empty address of one of its records, a write to one of its rows in
    the scanned table, or the one-second delay. *)
Definition event_of_batch (tableId : string) (records : list Rec) (e : Event) : Prop :=
  match e with
  | EvGeocode a => truthy a = true ∧ ∃ r, r ∈ records ∧ a = cell r Address
  | EvUpdateRecord t i _ => t = tableId ∧ ∃ r, r ∈ records ∧ rec_id r = i
  | EvDelay ms => ms = 1000%Z
  end.

(** A geocoder that finds nothing. *)
Definition sample_env_no_hit : Env := {|
  geocoder_geocode := fun _ => Ok (VArr []);
  applyUserActions := fun _ => Ok ()
|}.

Definition sample_located : Rec :=
  mkRec 7 (list_to_map [("Geocode", VBool true); ("Address", VStr "Bern");
                        ("Longitude", VInt 7); ("Latitude", VInt 46)]).

(** Every checkbox of a group agrees with the presence of its layer. *)
Definition mirrors_map (g : GroupBox) : Prop :=
  Forall (fun c => input_checked c = layer_on_map c) (childItems g).

Definition sample_group : GroupBox :=
  mkGroupBox true false [mkChildItem true true; mkChildItem true true].

Definition sample_diff_cell : JsVal :=
  VObj [("value", VStr "V(payload)")].

Definition sample_diff_host (payload : JsVal) : JsHost := {|
  StringToNumber := sample_StringToNumber;
  NumberToString := sample_NumberToString;
  JSON_parse := fun s => if String.eqb s "payload" then Ok payload else Throw SyntaxError;
  same_object := fun _ _ => false;
  DOMPurify_sanitize := fun s => s
|}.

(** The popup index and the cluster group agree: an entry of the index is
    a marker of the group tagged with the entry's row id; the markers of
    the selected row, and no others, carry the selected icon and pane; and
    the bounds points are the markers' positions. *)
Definition indexed_and_highlighted (sel : option Z) (b : Built) : Prop :=
  (∀ k m, built_popups b !! k = Some m → marker_id m = k ∧ m ∈ built_markers b) ∧
  Forall (fun m => (icon m = selectedIcon ↔ sel = Some (marker_id m)) ∧
                   (options_pane m = "selectedMarker" ↔ sel = Some (marker_id m)) ∧
                   pane m = None)
    (built_markers b) ∧
  built_points b = latlng <$> built_markers b.

(** Only the marker indexed under the selected row carries the selected
    icon. *)
Definition single_highlight (sel : option Z) (index : gmap Z Marker) : Prop :=
  map_Forall (fun k m => icon m = selectedIcon → sel = Some k) index.

(** A column table as the host returns it: one array per field. *)
Definition column_table (ids colIds labels : list JsVal) : JsVal :=
  VObj [("id", VArr ids); ("colId", VArr colIds); ("label", VArr labels)].

Definition sample_columns : JsVal :=
  column_table [VInt 1; VInt 2; VInt 3]
    [VStr "Name"; VStr "Layer"; VStr "Layer"]
    [VStr "Name"; VStr "Zone"; VStr "Other"].



(** A configuration that names a table and a GeoJSON column. *)
Definition usable (config : JsVal) : bool :=
  truthy (prop config "table") && truthy (prop config "columns")
  && truthy (prop (prop config "columns") "GeoJSON").

(** The name a layer gets from its configuration. *)
Definition configured_name (config : JsVal) : JsVal :=
  if truthy (prop config "layer") then prop config "layer" else prop config "table".

Section LayerVocabulary.
Context `{JsHost}.

(** Row [i] of the table has a GeoJSON cell that is truthy and, when it is
    a string, parses. *)
Definition row_kept (tableData geojsonCol : JsVal) (i : nat) : bool :=
  match column_cell tableData geojsonCol i with
  | Ok raw =>
      truthy raw && match parse_if_string raw with
                    | Ok _ => true
                    | Throw _ => false
                    end
  | Throw _ => false
  end.

(** Feature [f] carries the parsed GeoJSON cell of row [i]. *)
Definition feature_of_row (tableData geojsonCol : JsVal) (i : nat) (f : LayerFeature)
    : Prop :=
  ∃ raw, column_cell tableData geojsonCol i = Ok raw ∧
         parse_if_string raw = Ok (feature_geojson f).

End LayerVocabulary.

Definition sample_config (table : string) : JsVal :=
  VObj [("table", VStr table); ("columns", VObj [("GeoJSON", VStr "geo")])].

Definition sample_layer_table : JsVal :=
  VObj [("id", VArr [VInt 1; VInt 2; VInt 3]);
        ("geo", VArr [sample_point; VStr "{"; VNull])].

Definition sample_fetchTable (fetched : list JsVal) (table : JsVal) : Res JsVal :=
  if is_str table "Roads" then Ok sample_layer_table else Throw Rejected.

(** The widget's settings at start-up, with a batch already received. *)
Definition sample_settings : Settings :=
  mkSettings false (VStr "multi") (VStr "tiles") (VStr "(c)") (VArr [])
    (VArr [VObj []]).

Definition sample_interaction : JsVal := VObj [("accessLevel", VStr "full")].

(** ** Appearance

    What the selection functions set on a feature, in the words of the
    specification: an icon and a pane for a marker, a style at opacity 0.3
    or 0.6 and an icon for the sublayers of a GeoJSON layer. *)

(** The settings given to a marker that is unselected, and to the one that
    is selected: its icon and its [pane] property. *)
Definition marker_unselected (m : Marker) : Prop :=
  icon m = defaultIcon ∧ pane m = Some "otherMarkers".

Definition marker_selected (m : Marker) : Prop :=
  icon m = selectedIcon ∧ pane m = Some "selectedMarker".

(** What a selection leaves alone on a marker: its position, title, row
    id and popup, and the pane option it was constructed with. *)
Definition marker_kept (m m' : Marker) : Prop :=
  latlng m' = latlng m ∧ title m' = title m ∧ marker_id m' = marker_id m ∧
  options_pane m' = options_pane m ∧ popup m' = popup m.

Definition unselected_opacity : JsVal := VNum (Num (3 # 10)).
Definition selected_opacity : JsVal := VNum (Num (6 # 10)).

(** The value of key [k] in the style applied at opacity [o] to a row
    whose cached custom style is [custom]: the custom value where there is
    one, and [o] for the two opacity keys otherwise. *)
Definition style_at (o : JsVal) (custom : gmap string JsVal) (k : string) : option JsVal :=
  match custom !! k with
  | Some v => Some v
  | None => if bool_decide (k = "opacity" ∨ k = "fillOpacity") then Some o else None
  end.

Definition is_style (o : JsVal) (custom : gmap string JsVal) (style : gmap string JsVal)
    : Prop :=
  ∀ k, style !! k = style_at o custom k.

(** The layer [after] is [before] restyled at opacity [o] with icon [i]:
    every path takes the values of the style and keeps its other options,
    every point sublayer takes the icon and keeps its pane. *)
Definition layer_restyled (o : JsVal) (custom : gmap string JsVal) (i : Icon)
    (before after : list Sublayer) : Prop :=
  Forall2 (fun sl sl' =>
             match sl, sl' with
             | SubPath options, SubPath options' =>
                 ∀ k, options' !! k = match style_at o custom k with
                                      | Some v => Some v
                                      | None => options !! k
                                      end
             | SubMarker _ p, SubMarker i' p' => i' = i ∧ p' = p
             | _, _ => False
             end) before after.

(** The layer already looks that way. *)
Definition layer_looks (o : JsVal) (custom : gmap string JsVal) (i : Icon)
    (layer : list Sublayer) : Prop :=
  Forall (fun sl =>
            match sl with
            | SubPath options => ∀ k v, style_at o custom k = Some v → options !! k = Some v
            | SubMarker i' _ => i' = i
            end) layer.

(** The number of point sublayers of a layer. *)
Definition point_count (layer : list Sublayer) : nat :=
  length (List.filter (fun sl => match sl with
                                 | SubPath _ => false
                                 | SubMarker _ _ => true
                                 end) layer).


(** * Properties *)

(** ** GeometryExtractor *)

Section GeometryFacts.
Context `{JsHost}.

Lemma height_pos (v : JsVal) : 1 ≤ height v.
Proof. destruct v; simpl; lia. Qed.

Lemma height_alist_find k fields v :
  alist_find k fields = Some v → height v < height (VObj fields).
Proof.
  induction fields as [|[k' v'] fields IH]; simpl; [done|].
  destruct (String.eqb k k').
  - intros [= ->]. lia.
  - intros Hf. specialize (IH Hf). simpl in IH. lia.
Qed.

Lemma height_item x items : x ∈ items → height x < height (VArr items).
Proof.
  induction 1 as [x l|x y l _ IH]; simpl in *; lia.
Qed.

Lemma fits_mono n m v : n ≤ m → fits n v → fits m v.
Proof. intros ? [?|?]; [by left | right; lia]. Qed.

Lemma fits_alist_get n k fields :
  fits (S n) (VObj fields) → fits n (alist_get k fields).
Proof.
  intros [?|Hh]; [done|]. unfold alist_get.
  destruct (alist_find k fields) as [v|] eqn:Hf; simpl; [|by left].
  right. apply height_alist_find in Hf. lia.
Qed.

Lemma fits_prop n v k : fits (S n) v → fits n (prop v k).
Proof.
  destruct v; intros Hv; try (by left).
  - unfold prop; simpl. destruct (String.eqb k "length"); by left.
  - unfold prop; simpl. destruct (String.eqb k "length"); by left.
  - by apply fits_alist_get.
Qed.

Lemma is_object_chars s : Forall (fun v => is_object v = false) (chars s).
Proof.
  unfold chars. apply Forall_fmap, list.Forall_forall. by intros.
Qed.

Lemma fits_elements n v subs :
  fits (S n) v → elements v = Ok subs → Forall (fits n) subs.
Proof.
  destruct v; simpl; try done.
  - intros _ [= <-]. constructor.
  - intros _ [= <-]. constructor.
  - intros _ [= <-]. eapply list.Forall_impl; [apply is_object_chars|].
    intros ? ?; by left.
  - intros [?|Hh] [= <-]; [done|]. apply list.Forall_forall. intros x Hx.
    right. apply height_item in Hx. lia.
  - intros Hv. destruct (ToNumber _); simpl; [|done]. intros [= <-].
    apply Forall_fmap, list.Forall_forall. intros i _. by apply fits_alist_get.
Qed.

Lemma for_each_push_ext (f g : JsVal → list LatLng) subs acc :
  Forall (fun s => f s = g s) subs →
  for_each (fun s pts => (pts ++ f s, Ok ())) subs acc
  = for_each (fun s pts => (pts ++ g s, Ok ())) subs acc.
Proof.
  intros Hall. revert acc.
  induction Hall as [|s subs Hs _ IH]; intros acc; simpl; [done|].
  by rewrite Hs, IH.
Qed.

Lemma extract_try_ext (f g : JsVal → list LatLng) k geojson :
  fits (S k) geojson →
  (∀ s, fits k s → f s = g s) →
  extract_try f geojson = extract_try g geojson.
Proof.
  intros Hfit Hfg. unfold extract_try.
  set (geometry := geometry_of geojson).
  assert (fits (S k) geometry) as Hgeo.
  { subst geometry. unfold geometry_of. destruct (is_str _ _); [|done].
    eapply fits_mono; [|by apply fits_prop]. lia. }
  destruct (negb (truthy geometry) || _); [done|].
  destruct (ToString _) as [key|]; [|done].
  destruct (depthMap key); [done|].
  destruct (is_str _ "GeometryCollection"); [|done].
  destruct (elements _) as [subs|] eqn:Hsubs; [|done].
  apply for_each_push_ext.
  eapply list.Forall_impl; [|exact Hfg].
  eapply fits_elements; [|exact Hsubs].
  eapply fits_mono; [|by apply fits_prop]. lia.
Qed.

Lemma extract_primitive n v : is_object v = false → extractPoints_fuel n v = [].
Proof.
  intros Hv. destruct n; [done|]. destruct v; try done; simpl.
  - by rewrite orb_true_r.
  - by rewrite orb_true_r.
  - unfold prop; simpl. by rewrite orb_true_r.
Qed.

Lemma extractPoints_fuel_irrelevant n m v :
  fits n v → fits m v → extractPoints_fuel n v = extractPoints_fuel m v.
Proof.
  revert m v. induction n as [|n IH]; intros m v Hn Hm.
  - destruct Hn as [Hn|Hn]; [by rewrite !extract_primitive|].
    pose proof (height_pos v). lia.
  - destruct Hn as [Hn|Hn]; [by rewrite !extract_primitive|].
    destruct Hm as [Hm|Hm]; [by rewrite !extract_primitive|].
    destruct m as [|m]; [pose proof (height_pos v); lia|].
    simpl. destruct (negb (truthy v) || _); [done|]. f_equal.
    apply (extract_try_ext _ _ (Nat.min n m)).
    + right. lia.
    + intros s [Hs|Hs]; [by rewrite !extract_primitive|].
      apply IH; right; lia.
Qed.

(** Fuel beyond the height of the value does not change the result. *)
Lemma extractPoints_fuel_enough n v :
  height v ≤ n → extractPoints_fuel n v = extractPointsFromGeoJSON v.
Proof.
  intros Hn. apply extractPoints_fuel_irrelevant; right; [done|lia].
Qed.

End GeometryFacts.

Section GeometryTheorems.
Context `{JsHost}.

Lemma extract_unfold geojson :
  truthy geojson = true → truthy (prop geojson "type") = true →
  extractPointsFromGeoJSON geojson
  = (extract_try (extractPoints_fuel (pred (height geojson))) geojson).1.
Proof.
  intros Hg Ht. unfold extractPointsFromGeoJSON.
  pose proof (height_pos geojson). destruct (height geojson); [lia|].
  simpl. by rewrite Hg, Ht.
Qed.

Lemma extract_falsy geojson :
  truthy geojson && truthy (prop geojson "type") = false →
  extractPointsFromGeoJSON geojson = [].
Proof.
  intros Hg. unfold extractPointsFromGeoJSON.
  destruct (height geojson); [done|]. simpl.
  destruct (truthy geojson); simpl in *; [by rewrite Hg|done].
Qed.

Lemma extract_descends geojson depth coords :
  descends geojson depth coords →
  extractPointsFromGeoJSON geojson = (extractCoordinates depth coords []).1.
Proof.
  intros (Hg & Ht & Hgeo & -> & Hc & key & Hkey & Hd).
  rewrite extract_unfold by done. unfold extract_try.
  by rewrite Hgeo, Hc, Hkey, Hd.
Qed.

Lemma extractCoordinates_position v p acc :
  is_position v p → extractCoordinates 0 v acc = (acc ++ [p], Ok ()).
Proof. by intros [x y more]. Qed.

Lemma for_each_pushes {A} (body : A → list LatLng → list LatLng * Res unit)
    (R : A → list LatLng → Prop) items ptss acc :
  (∀ a pts acc', R a pts → body a acc' = (acc' ++ pts, Ok ())) →
  Forall2 R items ptss →
  for_each body items acc = (acc ++ concat ptss, Ok ()).
Proof.
  intros Hbody Hall. revert acc.
  induction Hall as [|a pts items ptss Ha _ IH]; intros acc; simpl.
  - by rewrite app_nil_r.
  - rewrite (Hbody _ _ _ Ha), IH. by rewrite <-app_assoc.
Qed.

Lemma concat_singletons {A} (l : list A) : concat ((fun x => [x]) <$> l) = l.
Proof. induction l; simpl; [done|]. by f_equal. Qed.

Lemma extractCoordinates_ring ring pts acc :
  ring_points ring pts → extractCoordinates 1 ring acc = (acc ++ pts, Ok ()).
Proof.
  intros (positions & -> & Hall). simpl.
  rewrite (for_each_pushes _ (fun v ps => ∃ p, ps = [p] ∧ is_position v p)
             positions ((fun p => [p]) <$> pts)).
  - by rewrite concat_singletons.
  - intros a ps acc' (p & -> & Hp). by apply extractCoordinates_position.
  - clear acc. induction Hall; simpl; constructor; eauto.
Qed.

Lemma extractCoordinates_rings rings ptss acc :
  Forall2 ring_points rings ptss →
  extractCoordinates 2 (VArr rings) acc = (acc ++ concat ptss, Ok ()).
Proof.
  intros Hall. simpl. apply (for_each_pushes _ ring_points); [|done].
  intros a pts acc' Ha. by apply (extractCoordinates_ring a pts acc').
Qed.

(** A well-formed Polygon yields the points of its rings, in order: as many
    as the ring lengths add up to, each with the latitude from the second
    and the longitude from the first element of its position. *)
Lemma extract_polygon fields rings ptss :
  alist_get "type" fields = VStr "Polygon" →
  alist_get "coordinates" fields = VArr rings →
  Forall2 ring_points rings ptss →
  extractPointsFromGeoJSON (VObj fields) = concat ptss ∧
  length (extractPointsFromGeoJSON (VObj fields)) = sum_list (ring_length <$> rings).
Proof.
  intros Ht Hc Hall.
  assert (extractPointsFromGeoJSON (VObj fields) = concat ptss) as ->.
  { rewrite (extract_descends _ 2 (VArr rings)).
    - by rewrite (extractCoordinates_rings rings ptss).
    - unfold descends, geometry_of, prop; simpl. rewrite !Ht; simpl.
      rewrite !Hc; simpl.
      repeat split; try done. exists "Polygon". by rewrite ?Ht. }
  split; [done|].
  clear Ht Hc. induction Hall as [|ring pts rings ptss Hr _ IH]; simpl; [done|].
  rewrite length_app, IH. f_equal.
  destruct Hr as (positions & -> & Hps). simpl.
  symmetry. by eapply Forall2_length.
Qed.

(** The same Polygon wrapped in a Feature is unwrapped first. *)
Lemma extract_polygon_feature ffields fields rings ptss :
  alist_get "type" ffields = VStr "Feature" →
  alist_get "geometry" ffields = VObj fields →
  alist_get "type" fields = VStr "Polygon" →
  alist_get "coordinates" fields = VArr rings →
  Forall2 ring_points rings ptss →
  extractPointsFromGeoJSON (VObj ffields) = concat ptss.
Proof.
  intros Hft Hfg Ht Hc Hall.
  rewrite (extract_descends _ 2 (VArr rings)).
  - by rewrite (extractCoordinates_rings rings ptss).
  - unfold descends, geometry_of, prop; simpl. rewrite !Hft; simpl.
    rewrite !Hfg; simpl. rewrite !Ht; simpl. rewrite !Hc; simpl.
    repeat split; try done. exists "Polygon". by rewrite ?Ht.
Qed.

(** A descent that raises at a [null] entry of a line keeps the points of
    the positions before it. *)
Lemma extract_line_prefix fields good pts rest :
  alist_get "type" fields = VStr "LineString" →
  alist_get "coordinates" fields = VArr (good ++ VNull :: rest) →
  Forall2 is_position good pts →
  extractCoordinates 1 (VArr (good ++ VNull :: rest)) [] = (pts, Throw TypeError) ∧
  extractPointsFromGeoJSON (VObj fields) = pts.
Proof.
  intros Ht Hc Hall.
  assert (∀ acc, extractCoordinates 1 (VArr (good ++ VNull :: rest)) acc
                 = (acc ++ pts, Throw TypeError)) as Hrun.
  { clear Ht Hc.
    change (∀ acc, for_each (extractCoordinates 0) (good ++ VNull :: rest) acc
                   = (acc ++ pts, Throw TypeError)).
    induction Hall as [|v p good pts Hv _ IH]; intros acc.
    - simpl. by rewrite app_nil_r.
    - cbn [app for_each].
      rewrite (extractCoordinates_position v p acc Hv), IH.
      by rewrite <-app_assoc. }
  split; [apply (Hrun [])|].
  rewrite (extract_descends _ 1 (VArr (good ++ VNull :: rest))).
  - by rewrite (Hrun []).
  - unfold descends, geometry_of, prop; simpl. rewrite !Ht; simpl.
      rewrite !Hc; simpl.
    repeat split; try done. exists "LineString". by rewrite ?Ht.
Qed.

End GeometryTheorems.

(** C8 (where the code departs from it).  A GeometryCollection as GeoJSON
    defines it has a [geometries] member and no [coordinates] member.  The
    extractor returns before it reaches its GeometryCollection branch,
    because the test [!geometry.coordinates] comes first: the collection
    yields no point although its only sub-geometry, taken alone, yields
    one.  The branch does recurse once a truthy [coordinates] member is
    added to the collection. *)
Theorem collection_without_coordinates_is_dropped `{JsHost} :
  extractPointsFromGeoJSON sample_collection = [] ∧
  extractPointsFromGeoJSON sample_point
    = [mkLatLng (Num (inject_Z 2)) (Num (inject_Z 1))] ∧
  extractPointsFromGeoJSON sample_collection_with_coordinates
    = [mkLatLng (Num (inject_Z 2)) (Num (inject_Z 1))].
Proof. repeat split; reflexivity. Qed.

(** C9 (as stated, refuted).  A descent that raises does not make the
    extractor return the empty list: the line [[1,2], null, [3,4]] raises
    at its second entry and the point of the first one is returned. *)
Lemma raise_yields_empty_refuted : ¬ raise_yields_empty.
Proof.
  intros Hclaim.
  specialize (Hclaim sample_host sample_broken_line 1
                (VArr [sample_position 1 2; VNull; sample_position 3 4])
                [mkLatLng (Num (inject_Z 2)) (Num (inject_Z 1))] TypeError).
  assert (@extractPointsFromGeoJSON sample_host sample_broken_line = []) as Habs.
  { apply Hclaim; [|reflexivity].
    repeat split. by exists "LineString". }
  discriminate Habs.
Qed.

(** C9 (amended).  An unknown geometry type yields no points.  A failure
    raised during the coordinate descent is caught, never propagated, and
    the extractor then returns the points pushed before the failure (all
    of them when there is none): the result is always the accumulator of
    the descent.  For a line whose positions are well-formed up to a
    [null] entry, these are exactly the points of the positions before
    that entry. *)
Theorem extractor_catches_and_keeps_points `{JsHost} :
  (∀ geojson,
     (∀ key, ToString (prop (geometry_of geojson) "type") = Ok key →
             depthMap key = None ∧ key ≠ "GeometryCollection") →
     extractPointsFromGeoJSON geojson = []) ∧
  (∀ geojson depth coords,
     descends geojson depth coords →
     extractPointsFromGeoJSON geojson = (extractCoordinates depth coords []).1) ∧
  (∀ fields good pts rest,
     alist_get "type" fields = VStr "LineString" →
     alist_get "coordinates" fields = VArr (good ++ VNull :: rest) →
     Forall2 is_position good pts →
     extractCoordinates 1 (VArr (good ++ VNull :: rest)) [] = (pts, Throw TypeError) ∧
     extractPointsFromGeoJSON (VObj fields) = pts).
Proof.
  split; [|split].
  - intros geojson Hunknown.
    destruct (truthy geojson && truthy (prop geojson "type")) eqn:Hguard;
      [|by apply extract_falsy].
    apply andb_true_iff in Hguard as [Hg Ht].
    rewrite extract_unfold by done. unfold extract_try.
    destruct (negb (truthy (geometry_of geojson)) || _); [done|].
    destruct (ToString _) as [key|] eqn:Hkey; [|done].
    destruct (Hunknown key eq_refl) as [-> Hne].
    destruct (prop (geometry_of geojson) "type") as [| | | |s| |] eqn:Htype; try done.
    simpl in Hkey. injection Hkey as ->. simpl.
    destruct (String.eqb_spec key "GeometryCollection"); [done|done].
  - apply extract_descends.
  - apply extract_line_prefix.
Qed.

Lemma extractor_catches_and_keeps_points_witness :
  @extractPointsFromGeoJSON sample_host sample_unknown = [] ∧
  @extractPointsFromGeoJSON sample_host sample_broken_line
    = [mkLatLng (Num (inject_Z 2)) (Num (inject_Z 1))].
Proof.
  destruct (@extractor_catches_and_keeps_points sample_host) as (Hu & _ & Hl).
  split.
  - apply Hu. intros key [= <-]. split; [reflexivity|discriminate].
  - apply (Hl _ [sample_position 1 2] _ [sample_position 3 4]).
    + reflexivity.
    + reflexivity.
    + repeat constructor.
Defined.

(** ** GeocodingScanner *)

Section ScannerFacts.
Context `{JsHost}.
Variable env : Env.
Variable tableId : string.
Variable mappings : gmap string JsVal.

Lemma cell_set_cell_eq k v record : cell (set_cell k v record) k = v.
Proof. unfold cell, set_cell; simpl. by rewrite lookup_insert_eq. Qed.

Lemma cell_set_cell_ne k k' v record :
  k ≠ k' → cell (set_cell k v record) k' = cell record k'.
Proof. intros. unfold cell, set_cell; simpl. by rewrite lookup_insert_ne. Qed.

Lemma clear_coordinates_cells record :
  cell (clear_coordinates record) Longitude = VNull ∧
  cell (clear_coordinates record) Latitude = VNull ∧
  cell (clear_coordinates record) GeoJSON = VNull ∧
  ∀ k, k ≠ Longitude → k ≠ Latitude → k ≠ GeoJSON →
       cell (clear_coordinates record) k = cell record k.
Proof.
  unfold clear_coordinates. repeat split.
  - rewrite !cell_set_cell_ne by done. apply cell_set_cell_eq.
  - rewrite cell_set_cell_ne by done. apply cell_set_cell_eq.
  - apply cell_set_cell_eq.
  - intros k ???. by rewrite !cell_set_cell_ne.
Qed.

(** The resolution step starts with the geocode request. *)
Lemma resolve_starts_with_geocode record address tr :
  ∃ more, (resolve env tableId mappings record address tr).1
          = tr ++ EvGeocode address :: more.
Proof.
  unfold resolve, geocode; simpl.
  destruct (_ ≫= _) as [result|]; simpl; [|by exists []].
  destruct (update_fields _ _ _) as [fields|]; simpl; [|by exists []].
  destruct (applyUserActions _ _); simpl;
    rewrite <-?app_assoc; simpl; eauto.
Qed.

Lemma scan_record_unmapped record tr :
  has_cell Geocode record = false →
  scan_record env tableId mappings record tr = (record, tr, Break).
Proof. intros Hc. unfold scan_record. by rewrite Hc. Qed.

Lemma scan_record_unflagged record tr :
  has_cell Geocode record = true → truthy (cell record Geocode) = false →
  scan_record env tableId mappings record tr = (record, tr, Next).
Proof. intros Hc Hf. unfold scan_record. by rewrite Hc, Hf. Qed.

Lemma scan_record_break record tr record' tr' :
  scan_record env tableId mappings record tr = (record', tr', Break) →
  has_cell Geocode record = false.
Proof.
  unfold scan_record. destruct (has_cell Geocode record); [|done]. simpl.
  destruct (truthy (cell record Geocode)); simpl; [|done].
  unfold cache_policy.
  destruct (truthy (cell record GeocodedAddress)).
  - destruct (loose_eq _ _) as [[]|]; try done.
    destruct (_ && _); [|done].
    unfold resolve. destruct (geocode _ _ _) as [tr1 [result|]]; [|done].
    destruct (update_fields _ _ _); [|done].
    by destruct (applyUserActions _ _).
  - destruct (_ && _); [|done].
    unfold resolve. destruct (geocode _ _ _) as [tr1 [result|]]; [|done].
    destruct (update_fields _ _ _); [|done].
    by destruct (applyUserActions _ _).
Qed.

Lemma scan_loop_next record rest tr record' tr' :
  scan_record env tableId mappings record tr = (record', tr', Next) →
  scan_loop env tableId mappings (record :: rest) tr
  = let '(rest', tr'', r) := scan_loop env tableId mappings rest tr' in
    (record' :: rest', tr'', r).
Proof. intros Hr. simpl. by rewrite Hr. Qed.

Lemma scan_loop_raise record rest tr record' tr' e :
  scan_record env tableId mappings record tr = (record', tr', Raise e) →
  scan_loop env tableId mappings (record :: rest) tr = (record' :: rest, tr', Throw e).
Proof. intros Hr. simpl. by rewrite Hr. Qed.

(** A batch whose scan ends at the record [record]: everything after it is
    returned as it was. *)
Lemma scan_loop_stops_at pre record rest tr :
  has_cell Geocode record = false →
  scan_loop env tableId mappings (pre ++ record :: rest) tr
  = let '(pre', tr', r) := scan_loop env tableId mappings pre tr in
    (pre' ++ record :: rest, tr', r).
Proof.
  intros Hc. revert tr. induction pre as [|p pre IH]; intros tr.
  - simpl. by rewrite scan_record_unmapped.
  - cbn [app scan_loop].
    destruct (scan_record env tableId mappings p tr) as [[p' tr'] []]; [|done|done].
    rewrite IH. by destruct (scan_loop env tableId mappings pre tr') as [[? ?] ?].
Qed.

(** A prefix of records with the Geocode role whose scan completes hands
    over to the rest of the batch. *)
Lemma scan_loop_app pre rest tr pre' tr' :
  Forall (fun r => has_cell Geocode r = true) pre →
  scan_loop env tableId mappings pre tr = (pre', tr', Ok ()) →
  scan_loop env tableId mappings (pre ++ rest) tr
  = let '(rest', tr'', r) := scan_loop env tableId mappings rest tr' in
    (pre' ++ rest', tr'', r).
Proof.
  intros Hall. revert tr pre' tr'.
  induction Hall as [|p pre Hp _ IH]; intros tr pre' tr'.
  - simpl. intros [= <- <-].
    by destruct (scan_loop env tableId mappings rest tr) as [[? ?] ?].
  - cbn [app scan_loop].
    destruct (scan_record env tableId mappings p tr) as [[p' tr1] []] eqn:Hrec.
    + destruct (scan_loop env tableId mappings pre tr1) as [[pre1 tr2] r] eqn:Hpre.
      intros [= <- <- ->]. rewrite (IH _ _ _ Hpre).
      by destruct (scan_loop env tableId mappings rest tr2) as [[? ?] ?].
    + apply scan_record_break in Hrec. congruence.
    + done.
Qed.

(** A record due for resolution goes to the resolution step. *)
Lemma scan_record_due record record' tr :
  awaits_resolution record record' →
  scan_record env tableId mappings record tr
  = (let (tr', c) := resolve env tableId mappings record' (cell record Address) tr in
     (record', tr', c)).
Proof.
  intros (Hcol & Hflag & Haddr & Hcase). unfold scan_record, cache_policy.
  rewrite Hcol, Hflag, Haddr. simpl.
  destruct Hcase as [(Hcache & Hlng & ->)|(Hcache & Hdiff & ->)].
  - by rewrite Hcache, Hlng.
  - rewrite Hcache, Hdiff.
    by rewrite (proj1 (clear_coordinates_cells record)).
Qed.

Lemma awaits_resolution_id record record' :
  awaits_resolution record record' → rec_id record' = rec_id record.
Proof. by intros (_ & _ & _ & [(_ & _ & ->)|(_ & _ & ->)]). Qed.

End ScannerFacts.

(** C2.  A record whose GeocodedAddress cache is non-empty and equal (==)
    to its current Address is passed over: its iteration makes no geocode
    request and no write-back (the trace is unchanged), the record is not
    mutated, no failure is raised, and when the Geocode role is present the
    scan goes on with the next record. *)
Theorem cached_address_is_skipped `{JsHost} env tableId mappings record tr :
  truthy (cell record GeocodedAddress) = true →
  loose_eq (cell record GeocodedAddress) (cell record Address) = Ok true →
  (∃ c, scan_record env tableId mappings record tr = (record, tr, c) ∧
        (c = Next ∨ c = Break) ∧
        (has_cell Geocode record = true → c = Next)) ∧
  (has_cell Geocode record = true →
   ∀ rest, scan_loop env tableId mappings (record :: rest) tr
           = let '(rest', tr', r) := scan_loop env tableId mappings rest tr in
             (record :: rest', tr', r)).
Proof.
  intros Hcache Heq.
  assert (∃ c, scan_record env tableId mappings record tr = (record, tr, c) ∧
               (c = Next ∨ c = Break) ∧
               (has_cell Geocode record = true → c = Next)) as Hstep.
  { unfold scan_record, cache_policy.
    destruct (has_cell Geocode record); simpl; [|exists Break; naive_solver].
    destruct (truthy (cell record Geocode)); simpl; [|exists Next; naive_solver].
    rewrite Hcache, Heq. exists Next. naive_solver. }
  split; [done|].
  intros Hmapped rest. destruct Hstep as (c & Hrec & _ & Hc).
  rewrite (Hc Hmapped) in Hrec. by apply scan_loop_next.
Qed.

Lemma cached_address_is_skipped_witness :
  @scan_loop sample_host sample_env "Places" sample_mappings
     [sample_cached; sample_unflagged] []
  = ([sample_cached; sample_unflagged], [], Ok ()).
Proof.
  destruct (@cached_address_is_skipped sample_host sample_env "Places"
              sample_mappings sample_cached [] eq_refl eq_refl) as [_ Hgo].
  rewrite (Hgo eq_refl [sample_unflagged]). reflexivity.
Defined.

(** C3.  For a record whose GeocodedAddress cache is non-empty and differs
    from its current Address, the scanner sets Longitude, Latitude and
    GeoJSON to null (leaving every other field) before anything else: once
    the record is one the scanner processes (Geocode role present and
    truthy) the cleared record is what the rest of the iteration sees, so
    the empty-Longitude test passes and the address is re-geocoded exactly
    when it is non-empty, whatever Longitude held before; and no iteration
    reaches the outside world for such a record without having cleared it,
    the first request being the geocode call for the current address. *)
Theorem changed_address_clears_coordinates `{JsHost} env tableId mappings record tr :
  truthy (cell record GeocodedAddress) = true →
  loose_eq (cell record GeocodedAddress) (cell record Address) = Ok false →
  let cleared := clear_coordinates record in
  (cell cleared Longitude = VNull ∧ cell cleared Latitude = VNull ∧
   cell cleared GeoJSON = VNull ∧
   ∀ k, k ≠ Longitude → k ≠ Latitude → k ≠ GeoJSON → cell cleared k = cell record k) ∧
  (has_cell Geocode record = true → truthy (cell record Geocode) = true →
   scan_record env tableId mappings record tr
   = if truthy (cell record Address)
     then let (tr', c) := resolve env tableId mappings cleared (cell record Address) tr in
          (cleared, tr', c)
     else (cleared, tr, Next)) ∧
  (∀ record' tr' c,
     scan_record env tableId mappings record tr = (record', tr', c) →
     tr' ≠ tr →
     record' = cleared ∧ ∃ more, tr' = tr ++ EvGeocode (cell record Address) :: more).
Proof.
  intros Hcache Hne cleared.
  assert (has_cell Geocode record = true → truthy (cell record Geocode) = true →
          scan_record env tableId mappings record tr
          = if truthy (cell record Address)
            then let (tr', c) :=
                   resolve env tableId mappings cleared (cell record Address) tr in
                 (cleared, tr', c)
            else (cleared, tr, Next)) as Hstep.
  { intros Hmapped Hflag. unfold scan_record, cache_policy.
    rewrite Hmapped, Hflag, Hcache, Hne. simpl.
    destruct (clear_coordinates_cells record) as (-> & _). simpl.
    by rewrite andb_true_r. }
  split; [apply clear_coordinates_cells|]. split; [done|].
  intros record' tr' c Hrec Htr.
  destruct (has_cell Geocode record) eqn:Hmapped;
    [|rewrite scan_record_unmapped in Hrec by done; congruence].
  destruct (truthy (cell record Geocode)) eqn:Hflag;
    [|rewrite scan_record_unflagged in Hrec by done; congruence].
  rewrite Hstep in Hrec by done.
  destruct (truthy (cell record Address)); [|congruence].
  destruct (resolve_starts_with_geocode env tableId mappings cleared
              (cell record Address) tr) as [more Hmore].
  destruct (resolve _ _ _ _ _ _) as [tr1 c1]. simpl in Hmore.
  injection Hrec as <- <- <-. eauto.
Qed.

Lemma changed_address_clears_coordinates_witness :
  @scan_loop sample_host sample_env "Places" sample_mappings [sample_moved] []
  = ([clear_coordinates sample_moved],
     [EvGeocode (VStr "Basel");
      EvUpdateRecord "Places" 4
        (<["Cache" := VStr "Basel"]>
           (<["Lat" := VInt 46]> (<["Lon" := VInt 7]> ∅)));
      EvDelay 1000],
     Ok ()).
Proof.
  destruct (@changed_address_clears_coordinates sample_host sample_env "Places"
              sample_mappings sample_moved [] eq_refl eq_refl) as (_ & Hstep & _).
  cbn [scan_loop]. rewrite (Hstep eq_refl eq_refl). reflexivity.
Defined.

(** C4.  The first record of the batch that does not contain the Geocode
    role ends the scan: the result is that of scanning the records before
    it, and it and every record after it are returned untouched, with no
    further effect.  A record that contains the role with a false or empty
    value is only passed over: the scan goes on with the next record. *)
Theorem unmapped_geocode_stops_scan `{JsHost} env tableId mappings :
  (∀ pre record rest tr,
     has_cell Geocode record = false →
     scan_loop env tableId mappings (pre ++ record :: rest) tr
     = let '(pre', tr', r) := scan_loop env tableId mappings pre tr in
       (pre' ++ record :: rest, tr', r)) ∧
  (∀ record rest tr,
     has_cell Geocode record = true → truthy (cell record Geocode) = false →
     scan_record env tableId mappings record tr = (record, tr, Next) ∧
     scan_loop env tableId mappings (record :: rest) tr
     = let '(rest', tr', r) := scan_loop env tableId mappings rest tr in
       (record :: rest', tr', r)).
Proof.
  split.
  - intros. by apply scan_loop_stops_at.
  - intros record rest tr Hmapped Hflag.
    pose proof (scan_record_unflagged env tableId mappings record tr Hmapped Hflag) as Hrec.
    split; [done|]. by apply scan_loop_next.
Qed.

Lemma unmapped_geocode_stops_scan_witness :
  @scan_loop sample_host sample_env "Places" sample_mappings
     [sample_unmapped; sample_pending 1 "Bern"] []
  = ([sample_unmapped; sample_pending 1 "Bern"], [], Ok ()) ∧
  @scan_loop sample_host sample_env "Places" sample_mappings
     [sample_unflagged; sample_pending 1 "Bern"] []
  = ([sample_unflagged; sample_pending 1 "Bern"],
     [EvGeocode (VStr "Bern");
      EvUpdateRecord "Places" 1
        (<["Cache" := VStr "Bern"]>
           (<["Lat" := VInt 46]> (<["Lon" := VInt 7]> ∅)));
      EvDelay 1000],
     Ok ()).
Proof.
  destruct (@unmapped_geocode_stops_scan sample_host sample_env "Places"
              sample_mappings) as [Hstop Hskip].
  split.
  - exact (Hstop [] sample_unmapped [sample_pending 1 "Bern"] [] eq_refl).
  - destruct (Hskip sample_unflagged [sample_pending 1 "Bern"] [] eq_refl eq_refl)
      as [_ ->].
    reflexivity.
Defined.

(** C5 (as stated, refuted).  With a geocoder that rejects its first
    request, the scan of two records that both await geocoding ends at the
    first one: the second is never requested. *)
Lemma scan_survives_errors_refuted : ¬ scan_survives_errors.
Proof.
  intros Hclaim.
  specialize (Hclaim sample_host sample_env_first_fails "Places" sample_mappings
                (sample_pending 1 "Bern") [sample_pending 2 "Basel"] []
                (sample_pending 1 "Bern") [EvGeocode (VStr "Bern")] Rejected eq_refl).
  vm_compute in Hclaim. discriminate Hclaim.
Qed.

(** C5 (amended).  When the resolution of a record fails the scan ends at
    that record: the promise of [scan] rejects, the records after it are
    returned unexamined and no further effect takes place.  This is so
    when the geocode request of a record due for resolution is rejected
    (the trace ends with that request), when the write-back of its result
    is rejected (the trace ends with that write), and for every other
    exception of the loop body.  [scanOnNeed] swallows the rejection and
    resets the in-flight flag, so that only a later trigger scans the
    batch again. *)
Theorem failed_resolution_aborts_scan `{JsHost} env tableId mappings
    pre pre' record rest tr0 tr :
  Forall (fun r => has_cell Geocode r = true) pre →
  scan_loop env tableId mappings pre tr0 = (pre', tr, Ok ()) →
  let batch := pre ++ record :: rest in
  let address := cell record Address in
  let request := tr ++ [EvGeocode address] in
  (∀ record' e,
     awaits_resolution record record' →
     geocoder_geocode env request = Throw e →
     scan_ends_with env tableId mappings batch tr0 (pre' ++ record' :: rest) request e) ∧
  (∀ record' result fields e,
     awaits_resolution record record' →
     (geocode env tr address).2 = Ok result →
     update_fields mappings result address = Ok fields →
     applyUserActions env (request ++ [EvUpdateRecord tableId (rec_id record) fields])
     = Throw e →
     scan_ends_with env tableId mappings batch tr0 (pre' ++ record' :: rest)
       (request ++ [EvUpdateRecord tableId (rec_id record) fields]) e) ∧
  (∀ record' tr' e,
     scan_record env tableId mappings record tr = (record', tr', Raise e) →
     scan_ends_with env tableId mappings batch tr0 (pre' ++ record' :: rest) tr' e).
Proof.
  intros Hall Hpre batch address request.
  assert (∀ record' tr' e,
            scan_record env tableId mappings record tr = (record', tr', Raise e) →
            scan_ends_with env tableId mappings batch tr0 (pre' ++ record' :: rest) tr' e)
    as Hraise.
  { intros record' tr' e Hrec.
    assert (scan_loop env tableId mappings batch tr0
            = (pre' ++ record' :: rest, tr', Throw e)) as Hloop.
    { subst batch.
      rewrite (scan_loop_app env tableId mappings pre (record :: rest) tr0 pre' tr
                 Hall Hpre).
      by rewrite (scan_loop_raise env tableId mappings record rest tr record' tr' e Hrec). }
    split; [exact Hloop|]. unfold scanOnNeed, scan. simpl. by rewrite Hloop. }
  split; [|split; [|exact Hraise]].
  - intros record' e Hdue Hfail. apply Hraise.
    rewrite (scan_record_due env tableId mappings record record' tr Hdue).
    unfold resolve, geocode. fold address request. by rewrite Hfail.
  - intros record' result fields e Hdue Hresult Hfields Hfail. apply Hraise.
    rewrite (scan_record_due env tableId mappings record record' tr Hdue).
    unfold resolve. fold address.
    destruct (geocode env tr address) as [tr1 r] eqn:Hgeo.
    assert (tr1 = request) as -> by (unfold geocode in Hgeo; by injection Hgeo as <- _).
    simpl in Hresult. subst r. rewrite Hfields.
    rewrite (awaits_resolution_id record record' Hdue). by rewrite Hfail.
Qed.

Lemma failed_resolution_aborts_scan_witness :
  @scan_loop sample_host sample_env_first_fails "Places" sample_mappings
     [sample_pending 1 "Bern"; sample_pending 2 "Basel"] []
  = ([sample_pending 1 "Bern"; sample_pending 2 "Basel"],
     [EvGeocode (VStr "Bern")], Throw Rejected) ∧
  @scan_loop sample_host sample_env_write_fails "Places" sample_mappings
     [sample_unflagged; sample_moved; sample_pending 2 "Basel"] []
  = ([sample_unflagged; @clear_coordinates sample_moved; sample_pending 2 "Basel"],
     [EvGeocode (VStr "Basel");
      EvUpdateRecord "Places" 4
        (<["Cache" := VStr "Basel"]>
           (<["Lat" := VInt 46]> (<["Lon" := VInt 7]> ∅)))],
     Throw Rejected).
Proof.
  split.
  - destruct (@failed_resolution_aborts_scan sample_host sample_env_first_fails "Places"
                sample_mappings [] [] (sample_pending 1 "Bern")
                [sample_pending 2 "Basel"] [] []) as (Hgeo & _ & _).
    + apply List.Forall_nil.
    + reflexivity.
    + apply (Hgeo (sample_pending 1 "Bern") Rejected).
      * repeat split. left. by repeat split.
      * reflexivity.
  - destruct (@failed_resolution_aborts_scan sample_host sample_env_write_fails "Places"
                sample_mappings [sample_unflagged] [sample_unflagged] sample_moved
                [sample_pending 2 "Basel"] [] []) as (_ & Hwrite & _).
    + apply List.Forall_cons; [reflexivity|apply List.Forall_nil].
    + reflexivity.
    + apply (Hwrite (@clear_coordinates sample_moved)
               (VObj [("lat", VInt 46); ("lng", VInt 7)])
               (<["Cache" := VStr "Basel"]>
                  (<["Lat" := VInt 46]> (<["Lon" := VInt 7]> ∅))) Rejected).
      * repeat split. right. by repeat split.
      * reflexivity.
      * reflexivity.
      * reflexivity.
Defined.

(** ** FeatureBuilder: the coordinate pass *)

Section PassFacts.
Context `{JsHost}.



















End PassFacts.

Section PassTheorems.
Context `{JsHost}.






End PassTheorems.


(** ** SelectionCoordinator *)

Lemma selectMaker_found id st marker :
  popups (reset_previous_marker st) !! id = Some marker →
  selectMaker id st
  = (Some (restyle_marker selectedIcon "selectedMarker" marker),
     mkMapState (Some id)
       (<[id := restyle_marker selectedIcon "selectedMarker" marker]>
          (popups (reset_previous_marker st)))
       (geoJSONLayers st) (geoJSONStyles st)
       (calls (reset_previous_marker st)
          ++ [SetIcon id selectedIcon; SetPane id "selectedMarker";
              RefreshClusters; SetCursorPos id])).
Proof.
  intros Hm. unfold selectMaker. rewrite Hm.
  assert (geoJSONLayers (reset_previous_marker st) = geoJSONLayers st
          ∧ geoJSONStyles (reset_previous_marker st) = geoJSONStyles st) as [Hl Hs].
  { unfold reset_previous_marker.
    by destruct (selectedRowId st) as [sel|]; [destruct (popups st !! sel)|]. }
  by rewrite Hl, Hs.
Qed.

Lemma reset_previous_marker_lookup st id :
  is_Some (popups (reset_previous_marker st) !! id) ↔ is_Some (popups st !! id).
Proof.
  unfold reset_previous_marker.
  destruct (selectedRowId st) as [sel|]; [|done].
  destruct (popups st !! sel) eqn:Hsel; [|done]. simpl.
  rewrite lookup_insert_is_Some.
  split; [|by destruct (decide (sel = id)); auto].
  intros [->|[_ ?]]; [by rewrite Hsel|done].
Qed.

Lemma selectGeoJSONFeature_found id st layer :
  geoJSONLayers (reset_previous_layer st) !! id = Some layer →
  selectGeoJSONFeature id st
  = (Some (setIcons selectedIcon
             (setStyle (assign_opacity opacity_06 (style_of st id)) layer)),
     mkMapState (Some id) (popups st)
       (<[id := setIcons selectedIcon
                  (setStyle (assign_opacity opacity_06 (style_of st id)) layer)]>
          (geoJSONLayers (reset_previous_layer st)))
       (geoJSONStyles st)
       (calls (reset_previous_layer st)
          ++ SetStyle id (assign_opacity opacity_06 (style_of st id))
          :: setIcon_calls id selectedIcon layer ++ [SetCursorPos id])).
Proof.
  intros Hl. unfold selectGeoJSONFeature. rewrite Hl.
  assert (geoJSONStyles (reset_previous_layer st) = geoJSONStyles st
          ∧ popups (reset_previous_layer st) = popups st) as [Hs Hp].
  { unfold reset_previous_layer.
    by destruct (selectedRowId st) as [sel|]; [destruct (geoJSONLayers st !! sel)|]. }
  unfold style_of. by rewrite Hs, Hp.
Qed.

Lemma reset_previous_layer_lookup st id :
  is_Some (geoJSONLayers (reset_previous_layer st) !! id)
  ↔ is_Some (geoJSONLayers st !! id).
Proof.
  unfold reset_previous_layer.
  destruct (selectedRowId st) as [sel|]; [|done].
  destruct (geoJSONLayers st !! sel) eqn:Hsel; [|done]. simpl.
  rewrite lookup_insert_is_Some.
  split; [|by destruct (decide (sel = id)); auto].
  intros [->|[_ ?]]; [by rewrite Hsel|done].
Qed.

Lemma setIcon_calls_setStyle id i style layer :
  setIcon_calls id i (setStyle style layer) = setIcon_calls id i layer.
Proof.
  induction layer as [|sl layer IH]; [done|].
  change (setIcon_calls id i (setStyle style (sl :: layer)))
    with (setIcon_calls id i ((setStyle style [sl]) ++ setStyle style layer)).
  unfold setIcon_calls in *. rewrite omap_app, IH. by destruct sl.
Qed.

Lemma setIcon_calls_setIcons id i j layer :
  setIcon_calls id i (setIcons j layer) = setIcon_calls id i layer.
Proof.
  induction layer as [|sl layer IH]; [done|].
  change (setIcon_calls id i (setIcons j (sl :: layer)))
    with (setIcon_calls id i ((setIcons j [sl]) ++ setIcons j layer)).
  unfold setIcon_calls in *. rewrite omap_app, IH. by destruct sl.
Qed.

(** [selectMaker] from a state whose selected row has a marker. *)
Lemma selectMaker_from_selected st sel prev id m :
  selectedRowId st = Some sel → popups st !! sel = Some prev →
  <[sel := restyle_marker defaultIcon "otherMarkers" prev]> (popups st) !! id = Some m →
  selectMaker id st
  = (Some (restyle_marker selectedIcon "selectedMarker" m),
     mkMapState (Some id)
       (<[id := restyle_marker selectedIcon "selectedMarker" m]>
          (<[sel := restyle_marker defaultIcon "otherMarkers" prev]> (popups st)))
       (geoJSONLayers st) (geoJSONStyles st)
       (calls st ++ [SetIcon sel defaultIcon; SetPane sel "otherMarkers";
                     SetIcon id selectedIcon; SetPane id "selectedMarker";
                     RefreshClusters; SetCursorPos id])).
Proof.
  intros Hsel Hprev Hm. unfold selectMaker, reset_previous_marker.
  rewrite Hsel, Hprev. simpl. rewrite Hm. by rewrite <-app_assoc.
Qed.

(** [selectGeoJSONFeature] from a state whose selected row has a layer. *)
Lemma selectGeoJSONFeature_from_selected st sel prev id layer :
  selectedRowId st = Some sel → geoJSONLayers st !! sel = Some prev →
  <[sel := setIcons defaultIcon
             (setStyle (assign_opacity opacity_03 (style_of st sel)) prev)]>
    (geoJSONLayers st) !! id = Some layer →
  selectGeoJSONFeature id st
  = (Some (setIcons selectedIcon
             (setStyle (assign_opacity opacity_06 (style_of st id)) layer)),
     mkMapState (Some id) (popups st)
       (<[id := setIcons selectedIcon
                  (setStyle (assign_opacity opacity_06 (style_of st id)) layer)]>
          (<[sel := setIcons defaultIcon
                      (setStyle (assign_opacity opacity_03 (style_of st sel)) prev)]>
             (geoJSONLayers st)))
       (geoJSONStyles st)
       (calls st
          ++ SetStyle sel (assign_opacity opacity_03 (style_of st sel))
          :: setIcon_calls sel defaultIcon prev
          ++ SetStyle id (assign_opacity opacity_06 (style_of st id))
          :: setIcon_calls id selectedIcon layer ++ [SetCursorPos id])).
Proof.
  intros Hsel Hprev Hl. unfold selectGeoJSONFeature, reset_previous_layer.
  rewrite Hsel, Hprev. simpl. rewrite Hl. unfold style_of; simpl.
  by rewrite <-app_assoc.
Qed.





(** The style the selection functions apply, key by key. *)
Lemma assign_opacity_is_style o custom : is_style o custom (assign_opacity o custom).
Proof.
  intros k. unfold assign_opacity, style_at. rewrite lookup_union.
  destruct (custom !! k) as [v|]; simpl; [by rewrite union_Some_l|].
  rewrite (left_id_L None _). case_bool_decide as Hk.
  - destruct Hk as [->| ->].
    + by rewrite lookup_insert_ne, lookup_insert_eq.
    + by rewrite lookup_insert_eq.
  - rewrite !lookup_insert_ne, lookup_empty; [done| |]; intros <-; apply Hk; auto.
Qed.

Lemma style_at_None o o' custom k :
  style_at o custom k = None → style_at o' custom k = None.
Proof.
  unfold style_at. destruct (custom !! k); [done|]. by case_bool_decide.
Qed.

Lemma restyle_layer_restyled o custom i layer :
  layer_restyled o custom i layer (setIcons i (setStyle (assign_opacity o custom) layer)).
Proof.
  unfold layer_restyled, setIcons, setStyle. rewrite <-list_fmap_compose.
  apply Forall2_fmap_r, Forall_Forall2_diag, list.Forall_forall.
  intros [options|j q] _; simpl; [|done].
  intros k. rewrite lookup_union, (assign_opacity_is_style o custom k).
  destruct (style_at o custom k); [by rewrite union_Some_l|by rewrite (left_id_L None _)].
Qed.

Lemma restyle_twice_restyled o o' custom i j layer :
  layer_restyled o custom i layer
    (setIcons i (setStyle (assign_opacity o custom)
       (setIcons j (setStyle (assign_opacity o' custom) layer)))).
Proof.
  unfold layer_restyled, setIcons, setStyle. rewrite <-!list_fmap_compose.
  apply Forall2_fmap_r, Forall_Forall2_diag, list.Forall_forall.
  intros [options|j' q] _; simpl; [|done].
  intros k. rewrite !lookup_union, (assign_opacity_is_style o custom k),
    (assign_opacity_is_style o' custom k).
  destruct (style_at o custom k) eqn:Hk; [by rewrite union_Some_l|].
  rewrite (style_at_None o o' custom k Hk). by rewrite !(left_id_L None _).
Qed.

Lemma restyle_twice_looks o o' custom i j layer :
  layer_looks o custom i layer →
  setIcons i (setStyle (assign_opacity o custom)
    (setIcons j (setStyle (assign_opacity o' custom) layer))) = layer.
Proof.
  intros Hlooks. unfold setIcons, setStyle. rewrite <-!list_fmap_compose.
  rewrite <-(list_fmap_id layer) at 2. apply Forall_fmap_ext_1.
  eapply list.Forall_impl; [exact Hlooks|].
  intros [options|i' q]; simpl; [|by intros ->].
  intros Hopt. f_equal. apply map_eq. intros k.
  rewrite !lookup_union, (assign_opacity_is_style o custom k),
    (assign_opacity_is_style o' custom k).
  destruct (style_at o custom k) as [v|] eqn:Hk.
  - by rewrite union_Some_l, (Hopt k v Hk).
  - rewrite (style_at_None o o' custom k Hk). by rewrite !(left_id_L None _).
Qed.

Lemma restyle_layer_looks o custom i layer :
  layer_looks o custom i (setIcons i (setStyle (assign_opacity o custom) layer)).
Proof.
  unfold layer_looks, setIcons, setStyle. rewrite <-list_fmap_compose.
  apply Forall_fmap, list.Forall_forall. intros [options|j q] _; simpl; [|done].
  intros k v Hk. by rewrite lookup_union, (assign_opacity_is_style o custom k), Hk,
    union_Some_l.
Qed.

Lemma setIcon_calls_replicate id i layer :
  setIcon_calls id i layer = replicate (point_count layer) (SetIcon id i).
Proof.
  unfold setIcon_calls, point_count.
  induction layer as [|[options|j q] layer IH]; [done| |].
  - exact IH.
  - simpl. f_equal. exact IH.
Qed.

(** C6 (as stated, refuted).  Selecting the selected marker again does make
    restyle calls: with row 1 selected, [selectMaker 1] resets its icon and
    pane and sets them again. *)
Lemma reselect_is_silent_refuted : ¬ reselect_is_silent.
Proof.
  intros Hclaim. destruct (Hclaim sample_map 1%Z eq_refl) as [Hcalls _].
  vm_compute in Hcalls. discriminate Hcalls.
Qed.

(** C6 (amended).  Only [selectOnMap] treats the selection of the selected
    row as a no-op: it returns at once.  [selectMaker] and
    [selectGeoJSONFeature], which clicks and the host cursor go through in
    multi-row mode, have no such test: on the selected row they reset its
    feature to the unselected settings and set the selected ones again,
    with all the calls that takes, and repeat the cursor update.  The
    stored row, the custom styles and every other feature stay as they
    were, and the feature ends with the selected icon and pane (marker) or
    the selected style and icon (layer).  So when it carried them already,
    as it does after a [select(id)], nothing has changed in the end; when
    it did not, the call changes it. *)
Theorem reselect_keeps_state_but_restyles :
  (∀ updateMap mode rec mappings st,
     selectedRowId st = Some (rec_id rec) →
     selectOnMap updateMap mode rec mappings st = st) ∧
  (∀ st id m,
     selectedRowId st = Some id → popups st !! id = Some m →
     let st' := (selectMaker id st).2 in
     selectedRowId st' = Some id ∧
     (∃ m', popups st' !! id = Some m' ∧ marker_selected m' ∧ marker_kept m m') ∧
     (∀ c, c ≠ id → popups st' !! c = popups st !! c) ∧
     geoJSONLayers st' = geoJSONLayers st ∧ geoJSONStyles st' = geoJSONStyles st ∧
     calls st' = calls st ++ [SetIcon id defaultIcon; SetPane id "otherMarkers";
                              SetIcon id selectedIcon; SetPane id "selectedMarker";
                              RefreshClusters; SetCursorPos id] ∧
     (marker_selected m → popups st' = popups st)) ∧
  (∀ st id layer,
     selectedRowId st = Some id → geoJSONLayers st !! id = Some layer →
     let custom := default ∅ (geoJSONStyles st !! id) in
     let st' := (selectGeoJSONFeature id st).2 in
     selectedRowId st' = Some id ∧
     (∃ layer', geoJSONLayers st' !! id = Some layer' ∧
                layer_restyled selected_opacity custom selectedIcon layer layer') ∧
     (∀ c, c ≠ id → geoJSONLayers st' !! c = geoJSONLayers st !! c) ∧
     popups st' = popups st ∧ geoJSONStyles st' = geoJSONStyles st ∧
     (∃ dim bright,
        is_style unselected_opacity custom dim ∧
        is_style selected_opacity custom bright ∧
        calls st' = calls st
          ++ SetStyle id dim :: replicate (point_count layer) (SetIcon id defaultIcon)
          ++ SetStyle id bright :: replicate (point_count layer) (SetIcon id selectedIcon)
          ++ [SetCursorPos id]) ∧
     (layer_looks selected_opacity custom selectedIcon layer →
      geoJSONLayers st' = geoJSONLayers st)) ∧
  (∀ st id,
     is_Some (popups st !! id) →
     selectedRowId (selectMaker id st).2 = Some id ∧
     ∃ m, popups (selectMaker id st).2 !! id = Some m ∧ marker_selected m) ∧
  (∀ st id,
     is_Some (geoJSONLayers st !! id) →
     selectedRowId (selectGeoJSONFeature id st).2 = Some id ∧
     geoJSONStyles (selectGeoJSONFeature id st).2 = geoJSONStyles st ∧
     ∃ layer, geoJSONLayers (selectGeoJSONFeature id st).2 !! id = Some layer ∧
              layer_looks selected_opacity (default ∅ (geoJSONStyles st !! id))
                selectedIcon layer).
Proof.
  split; [|split; [|split; [|split]]].
  - intros updateMap mode rec mappings st Hsel. unfold selectOnMap.
    by rewrite bool_decide_eq_true_2.
  - intros st id m Hsel Hm st'. subst st'.
    rewrite (selectMaker_from_selected st id m id
               (restyle_marker defaultIcon "otherMarkers" m) Hsel Hm)
      by apply lookup_insert_eq.
    simpl. rewrite insert_insert_eq.
    split; [done|]. split; [|split; [|split; [done|split; [done|split; [done|]]]]].
    + eexists. split; [apply lookup_insert_eq|]. done.
    + intros c Hc. by rewrite lookup_insert_ne.
    + intros Hlook.
      assert (restyle_marker selectedIcon "selectedMarker"
                (restyle_marker defaultIcon "otherMarkers" m) = m) as ->.
      { destruct m. destruct Hlook as [Hi Hp]. simpl in *. by subst. }
      by apply insert_id.
  - intros st id layer Hsel Hl custom st'. subst st'.
    rewrite (selectGeoJSONFeature_from_selected st id layer id
               (setIcons defaultIcon
                  (setStyle (assign_opacity opacity_03 (style_of st id)) layer))
               Hsel Hl) by apply lookup_insert_eq.
    simpl. rewrite insert_insert_eq. unfold style_of. fold custom.
    split; [done|]. split; [|split; [|split; [done|split; [done|split]]]].
    + eexists. split; [apply lookup_insert_eq|].
      apply (restyle_twice_restyled opacity_06 opacity_03).
    + intros c Hc. by rewrite lookup_insert_ne.
    + exists (assign_opacity opacity_03 custom), (assign_opacity opacity_06 custom).
      split; [apply assign_opacity_is_style|]. split; [apply assign_opacity_is_style|].
      by rewrite setIcon_calls_setIcons, setIcon_calls_setStyle,
        !setIcon_calls_replicate.
    + intros Hlooks.
      rewrite (restyle_twice_looks opacity_06 opacity_03 custom _ _ layer Hlooks).
      by apply insert_id.
  - intros st id Hid. apply reset_previous_marker_lookup in Hid as [m Hm].
    rewrite (selectMaker_found _ _ _ Hm). simpl. split; [done|].
    eexists. split; [apply lookup_insert_eq|done].
  - intros st id Hid. apply reset_previous_layer_lookup in Hid as [l Hl].
    rewrite (selectGeoJSONFeature_found _ _ _ Hl). simpl.
    split; [done|]. split; [done|].
    eexists. split; [apply lookup_insert_eq|].
    apply (restyle_layer_looks opacity_06).
Qed.

Lemma reselect_keeps_state_but_restyles_witness :
  calls (selectMaker 1 sample_map).2
  = [SetIcon 1 defaultIcon; SetPane 1 "otherMarkers";
     SetIcon 1 selectedIcon; SetPane 1 "selectedMarker";
     RefreshClusters; SetCursorPos 1] ∧
  geoJSONLayers (selectGeoJSONFeature 1 sample_map).2 = geoJSONLayers sample_map.
Proof.
  destruct reselect_keeps_state_but_restyles as (_ & Hmarker & Hlayer & _).
  split.
  - destruct (Hmarker sample_map 1%Z (sample_marker 1 selectedIcon "selectedMarker")
                eq_refl eq_refl) as (_ & _ & _ & _ & _ & Hcalls & _).
    exact Hcalls.
  - destruct (Hlayer sample_map 1%Z (sample_layer selectedIcon "selectedMarker" opacity_06)
                eq_refl eq_refl) as (_ & _ & _ & _ & _ & _ & Hsame).
    apply Hsame.
    change (default ∅ (geoJSONStyles sample_map !! 1%Z)) with (∅ : gmap string JsVal).
    apply List.Forall_cons; [|apply List.Forall_cons; [done|apply List.Forall_nil]].
    intros k v. unfold style_at. rewrite lookup_empty. case_bool_decide as Hk; [|done].
    intros [= <-]. by destruct Hk as [->| ->].
Defined.




(** C10.  A selection attempt for a row without a feature returns null and
    leaves the stored selected row id as it was, yet the previously
    selected feature, when there is one, has already been given the
    unselected settings: a marker has the default icon and the pane
    property "otherMarkers", a layer its cached custom style with opacity
    0.3 where that style sets none and the default icon on its point
    sublayers.  The stored id then names a feature that looks unselected.
    No other feature is touched. *)
Theorem select_missing_unselects_previous :
  (∀ st id,
     popups st !! id = None →
     let st' := (selectMaker id st).2 in
     (selectMaker id st).1 = None ∧
     selectedRowId st' = selectedRowId st ∧
     (∀ c, selectedRowId st ≠ Some c → popups st' !! c = popups st !! c) ∧
     geoJSONLayers st' = geoJSONLayers st ∧
     ∀ prev m,
       selectedRowId st = Some prev → popups st !! prev = Some m →
       (∃ m', popups st' !! prev = Some m' ∧ marker_unselected m' ∧ marker_kept m m') ∧
       calls st' = calls st ++ [SetIcon prev defaultIcon; SetPane prev "otherMarkers"]) ∧
  (∀ st id,
     geoJSONLayers st !! id = None →
     let st' := (selectGeoJSONFeature id st).2 in
     (selectGeoJSONFeature id st).1 = None ∧
     selectedRowId st' = selectedRowId st ∧
     (∀ c, selectedRowId st ≠ Some c → geoJSONLayers st' !! c = geoJSONLayers st !! c) ∧
     popups st' = popups st ∧
     ∀ prev l,
       selectedRowId st = Some prev → geoJSONLayers st !! prev = Some l →
       let custom := default ∅ (geoJSONStyles st !! prev) in
       (∃ l', geoJSONLayers st' !! prev = Some l' ∧
              layer_restyled unselected_opacity custom defaultIcon l l' ∧
              layer_looks unselected_opacity custom defaultIcon l') ∧
       ∃ dim, is_style unselected_opacity custom dim ∧
              calls st' = calls st ++ SetStyle prev dim
                            :: replicate (point_count l) (SetIcon prev defaultIcon)).
Proof.
  split.
  - intros st id Hid st'. subst st'.
    assert (popups (reset_previous_marker st) !! id = None) as Hnone.
    { apply eq_None_not_Some. rewrite reset_previous_marker_lookup.
      by rewrite Hid; intros []. }
    unfold selectMaker. rewrite Hnone. simpl. split; [done|].
    unfold reset_previous_marker.
    destruct (selectedRowId st) as [sel|] eqn:Hs;
      [destruct (popups st !! sel) as [prevm|] eqn:Hp|]; simpl.
    + split; [done|]. split; [|split; [done|]].
      * intros c Hc. rewrite lookup_insert_ne; [done|congruence].
      * intros prev m [= <-] Hm. rewrite Hp in Hm. injection Hm as <-.
        split; [|done]. eexists. split; [apply lookup_insert_eq|done].
    + split; [done|]. split; [done|]. split; [done|].
      intros prev m [= <-] Hm. congruence.
    + split; [done|]. split; [done|]. split; [done|]. by intros prev m ?.
  - intros st id Hid st'. subst st'.
    assert (geoJSONLayers (reset_previous_layer st) !! id = None) as Hnone.
    { apply eq_None_not_Some. rewrite reset_previous_layer_lookup.
      by rewrite Hid; intros []. }
    unfold selectGeoJSONFeature. rewrite Hnone. simpl. split; [done|].
    unfold reset_previous_layer.
    destruct (selectedRowId st) as [sel|] eqn:Hs;
      [destruct (geoJSONLayers st !! sel) as [prevl|] eqn:Hp|]; simpl.
    + split; [done|]. split; [|split; [done|]].
      * intros c Hc. rewrite lookup_insert_ne; [done|congruence].
      * intros prev l [= <-] Hl. rewrite Hp in Hl. injection Hl as <-.
        unfold style_of. set (custom := default ∅ (geoJSONStyles st !! sel)). split.
        -- eexists. split; [apply lookup_insert_eq|].
           split; [apply (restyle_layer_restyled opacity_03)|
                   apply (restyle_layer_looks opacity_03)].
        -- exists (assign_opacity opacity_03 custom).
           split; [apply assign_opacity_is_style|].
           by rewrite setIcon_calls_replicate.
    + split; [done|]. split; [done|]. split; [done|].
      intros prev l [= <-] Hl. congruence.
    + split; [done|]. split; [done|]. split; [done|]. by intros prev l ?.
Qed.

Lemma select_missing_unselects_previous_witness :
  ((selectMaker 9 sample_map).1 = None ∧
   selectedRowId (selectMaker 9 sample_map).2 = Some 1%Z ∧
   ∃ m', popups (selectMaker 9 sample_map).2 !! 1%Z = Some m' ∧ marker_unselected m') ∧
  ((selectGeoJSONFeature 9 sample_map).1 = None ∧
   selectedRowId (selectGeoJSONFeature 9 sample_map).2 = Some 1%Z ∧
   ∃ l', geoJSONLayers (selectGeoJSONFeature 9 sample_map).2 !! 1%Z = Some l' ∧
         layer_looks unselected_opacity ∅ defaultIcon l').
Proof.
  destruct select_missing_unselects_previous as [Hmarker Hlayer].
  split.
  - destruct (Hmarker sample_map 9%Z eq_refl) as (Hret & Hsel & _ & _ & Hprev).
    destruct (Hprev 1%Z (sample_marker 1 selectedIcon "selectedMarker") eq_refl eq_refl)
      as ((m' & Hm' & Hlook & _) & _).
    split; [exact Hret|]. split; [exact Hsel|]. by exists m'.
  - destruct (Hlayer sample_map 9%Z eq_refl) as (Hret & Hsel & _ & _ & Hprev).
    destruct (Hprev 1%Z (sample_layer selectedIcon "selectedMarker" opacity_06)
                eq_refl eq_refl) as ((l' & Hl' & _ & Hlook) & _).
    split; [exact Hret|]. split; [exact Hsel|]. by exists l'.
Defined.

(** * Further properties of the code *)

(** ** GeometryExtractor *)

Section GeometryMore.
Context `{JsHost}.

Lemma extractCoordinates_well_nested d v pts acc :
  well_nested d v pts → extractCoordinates d v acc = (acc ++ pts, Ok ()).
Proof.
  revert v pts acc. induction d as [|d IH]; intros v pts acc.
  - intros (p & Hp & ->). by apply extractCoordinates_position.
  - intros (items & ptss & -> & Hall & ->).
    change (for_each (extractCoordinates d) items acc = (acc ++ concat ptss, Ok ())).
    apply (for_each_pushes _ (well_nested d)); [|done].
    intros a ps acc' Ha. by apply IH.
Qed.

Lemma well_nested_truthy d v pts : well_nested d v pts → truthy v = true.
Proof.
  destruct d; simpl.
  - by intros (p & [] & _).
  - by intros (? & ? & -> & _).
Qed.

Lemma depthMap_known key d :
  depthMap key = Some d → key ≠ "" ∧ key ≠ "Feature" ∧ key ≠ "GeometryCollection".
Proof. intros Hd. repeat split; by intros ->. Qed.

(** X1.  For each of the six geometry types, a geometry whose coordinates
    are well-formed to the nesting depth of its type yields the points of
    all its positions, in document order, with latitude from the second
    and longitude from the first element of each position. *)
Theorem extract_well_formed_geometry fields key d coords pts :
  alist_get "type" fields = VStr key →
  depthMap key = Some d →
  alist_get "coordinates" fields = coords →
  well_nested d coords pts →
  extractPointsFromGeoJSON (VObj fields) = pts.
Proof.
  intros Ht Hd Hc Hwn.
  destruct (depthMap_known key d Hd) as (Hne & Hnf & _).
  rewrite (extract_descends _ d coords).
  - by rewrite (extractCoordinates_well_nested d coords pts []).
  - unfold descends, geometry_of, prop; simpl. rewrite !Ht; simpl.
    apply String.eqb_neq in Hne, Hnf. rewrite Hne, Hnf; simpl.
    rewrite !Hc. repeat split; try done.
    + by apply (well_nested_truthy d coords pts).
    + exists key. by rewrite ?Ht.
Qed.

(** X2.  Whatever is not an object with a truthy [type] yields no point:
    null, undefined, numbers, strings, booleans, arrays and objects without
    a type.  So does a geometry without truthy coordinates and a Feature
    without a truthy geometry. *)
Theorem extract_nothing_without_geometry geojson :
  (∀ fields, geojson = VObj fields →
     truthy (alist_get "type" fields) = false ∨
     truthy (geometry_of geojson) = false ∨
     truthy (prop (geometry_of geojson) "coordinates") = false) →
  extractPointsFromGeoJSON geojson = [].
Proof.
  intros Hno.
  destruct (truthy geojson && truthy (prop geojson "type")) eqn:Hguard;
    [|by apply extract_falsy].
  apply andb_true_iff in Hguard as [Hg Ht].
  destruct geojson as [| | | | | |fields];
    try (unfold prop in Ht; simpl in Ht;
         try destruct (String.eqb "type" "length"); discriminate).
  rewrite extract_unfold by done. unfold extract_try.
  destruct (Hno fields eq_refl) as [Hf|[Hf|Hf]].
  - unfold prop in Ht; simpl in Ht. congruence.
  - by rewrite Hf.
  - by rewrite Hf, orb_true_r.
Qed.

Lemma extract_try_same_geometry self f g :
  geometry_of f = geometry_of g → extract_try self f = extract_try self g.
Proof. intros Hfg. unfold extract_try. by rewrite Hfg. Qed.

(** X3.  A Feature is unwrapped to its geometry: when the [geometry] member
    of a Feature has a string type other than "Feature", the extractor
    returns for the Feature exactly what it returns for that geometry. *)
Theorem extract_feature_unwraps ffields geometry t :
  alist_get "type" ffields = VStr "Feature" →
  alist_get "geometry" ffields = geometry →
  prop geometry "type" = VStr t → t ≠ "Feature" →
  extractPointsFromGeoJSON (VObj ffields) = extractPointsFromGeoJSON geometry.
Proof.
  intros Hft Hfg Hgt Hne.
  assert (geometry_of (VObj ffields) = geometry) as Hgeo.
  { unfold geometry_of, prop; simpl. by rewrite Hft; simpl. }
  assert (geometry_of geometry = geometry) as Hgeo'.
  { unfold geometry_of. rewrite Hgt; simpl.
    apply String.eqb_neq in Hne. by rewrite Hne. }
  destruct geometry as [| | | | | |gfields];
    try (unfold prop in Hgt; simpl in Hgt;
         try destruct (String.eqb "type" "length"); congruence).
  rewrite extract_unfold;
    [|done|by unfold prop; simpl; rewrite Hft].
  destruct (String.eqb_spec t "") as [->|Hte].
  - rewrite (extract_falsy (VObj gfields)) by by rewrite Hgt.
    unfold extract_try. rewrite Hgeo. simpl.
    destruct (truthy _); simpl; [|done]. by rewrite Hgt.
  - rewrite (extract_unfold (VObj gfields));
      [|done|by rewrite Hgt; simpl; apply negb_true_iff, String.eqb_neq].
    rewrite (extract_try_same_geometry _ (VObj ffields) (VObj gfields))
      by by rewrite Hgeo, Hgeo'.
    f_equal. apply (extract_try_ext _ _ (pred (height (VObj gfields)))).
    + right. pose proof (height_pos (VObj gfields)). lia.
    + intros s Hs. apply extractPoints_fuel_irrelevant; [|done].
      eapply fits_mono; [|exact Hs].
      assert (height (VObj gfields) < height (VObj ffields)); [|lia].
      apply (height_alist_find "geometry").
      unfold alist_get in Hfg.
      destruct (alist_find "geometry" ffields) as [?|]; simpl in Hfg; congruence.
Qed.

Lemma for_each_extract_subs n subs acc :
  Forall (fun s => height s ≤ n) subs →
  for_each (fun g pts => (pts ++ extractPoints_fuel n g, Ok ())) subs acc
  = (acc ++ concat (extractPointsFromGeoJSON <$> subs), Ok ()).
Proof.
  intros Hsubs. revert acc.
  induction Hsubs as [|s subs Hs _ IH]; intros acc; simpl.
  - by rewrite app_nil_r.
  - rewrite IH, <-app_assoc. by rewrite (extractPoints_fuel_enough _ s Hs).
Qed.

(** X4.  When the GeometryCollection branch is reached (the collection
    carries a truthy [coordinates] member), the result is the
    concatenation, in order, of what the extractor returns for each entry
    of [geometries]. *)
Theorem extract_collection_concat fields subs :
  alist_get "type" fields = VStr "GeometryCollection" →
  truthy (alist_get "coordinates" fields) = true →
  alist_get "geometries" fields = VArr subs →
  extractPointsFromGeoJSON (VObj fields) = concat (extractPointsFromGeoJSON <$> subs).
Proof.
  intros Ht Hc Hg.
  assert (Forall (fun s => height s ≤ pred (height (VObj fields))) subs) as Hsubs.
  { apply list.Forall_forall. intros s Hs.
    assert (height (VArr subs) < height (VObj fields)) as Hlt.
    { apply (height_alist_find "geometries").
      unfold alist_get in Hg.
      destruct (alist_find "geometries" fields) as [?|]; simpl in Hg; congruence. }
    apply height_item in Hs. lia. }
  rewrite extract_unfold; [|done|by unfold prop; simpl; rewrite Ht].
  unfold extract_try, geometry_of.
  change (prop (VObj fields) "type") with (alist_get "type" fields).
  rewrite !Ht. cbn [is_str String.eqb Ascii.eqb Bool.eqb].
  change (prop (VObj fields) "coordinates") with (alist_get "coordinates" fields).
  change (prop (VObj fields) "geometries") with (alist_get "geometries" fields).
  change (prop (VObj fields) "type") with (alist_get "type" fields).
  rewrite Hc, Hg, !Ht. simpl.
  by rewrite for_each_extract_subs.
Qed.

End GeometryMore.

Lemma extract_well_formed_geometry_witness :
  @extractPointsFromGeoJSON sample_host sample_multipolygon
  = [mkLatLng (Num (inject_Z 2)) (Num (inject_Z 1));
     mkLatLng (Num (inject_Z 4)) (Num (inject_Z 3));
     mkLatLng (Num (inject_Z 6)) (Num (inject_Z 5))].
Proof.
  apply (@extract_well_formed_geometry sample_host _ "MultiPolygon" 3
           (VArr [VArr [VArr [sample_position 1 2; sample_position 3 4]];
                  VArr [VArr [sample_position 5 6]; VArr []]])).
  - reflexivity.
  - reflexivity.
  - reflexivity.
  - eexists _, [[_; _]; [_]]. split; [reflexivity|]. split; [|reflexivity].
    repeat constructor.
    + eexists _, [[_; _]]. split; [reflexivity|]. split; [|reflexivity].
      repeat constructor.
      eexists _, [[_]; [_]]. split; [reflexivity|]. split; [|reflexivity].
      repeat constructor; eexists; (split; [constructor|reflexivity]).
    + eexists _, [[_]; []]. split; [reflexivity|]. split; [|reflexivity].
      repeat constructor.
      * eexists _, [[_]]. split; [reflexivity|]. split; [|reflexivity].
        repeat constructor; eexists; (split; [constructor|reflexivity]).
      * eexists _, []. split; [reflexivity|]. split; [|reflexivity]. constructor.
Defined.

Lemma extract_nothing_without_geometry_witness :
  @extractPointsFromGeoJSON sample_host (VArr [sample_point]) = [] ∧
  @extractPointsFromGeoJSON sample_host (sample_feature VNull) = [].
Proof.
  split; apply (@extract_nothing_without_geometry sample_host).
  - intros fields Hf. discriminate Hf.
  - intros fields _. right. left. reflexivity.
Defined.

Lemma extract_feature_unwraps_witness :
  @extractPointsFromGeoJSON sample_host (sample_feature sample_broken_line)
  = @extractPointsFromGeoJSON sample_host sample_broken_line.
Proof.
  apply (@extract_feature_unwraps sample_host _ sample_broken_line "LineString").
  - reflexivity.
  - reflexivity.
  - reflexivity.
  - discriminate.
Defined.

Lemma extract_collection_concat_witness :
  @extractPointsFromGeoJSON sample_host sample_collection_with_coordinates
  = concat (@extractPointsFromGeoJSON sample_host <$> [sample_point]).
Proof.
  apply (@extract_collection_concat sample_host); reflexivity.
Defined.

(** ** GeocodingScanner *)

Section ScannerMore.
Context `{JsHost}.
Variable env : Env.
Variable tableId : string.
Variable mappings : gmap string JsVal.

(** The three ways the resolution step can end. *)
Lemma resolve_cases record address tr :
  ∃ tr' c, resolve env tableId mappings record address tr = (tr', c) ∧
    ((∃ e, tr' = tr ++ [EvGeocode address] ∧ c = Raise e) ∨
     (∃ e fields, tr' = tr ++ [EvGeocode address;
                               EvUpdateRecord tableId (rec_id record) fields] ∧
                  c = Raise e) ∨
     (∃ fields, tr' = tr ++ [EvGeocode address;
                             EvUpdateRecord tableId (rec_id record) fields;
                             EvDelay 1000] ∧
                c = Next)).
Proof.
  unfold resolve, geocode.
  destruct (_ ≫= _) as [result|e]; [|by eauto 10].
  destruct (update_fields _ _ _) as [fields|e]; [|by eauto 10].
  destruct (applyUserActions _ _) as [[]|e]; rewrite <-?app_assoc; simpl.
  - do 2 eexists. split; [done|]. right. right. by eexists.
  - do 2 eexists. split; [done|]. right. left. by do 2 eexists.
Qed.

(** The ways one iteration of the scan can end. *)
Lemma scan_record_cases record tr :
  ∃ record' tr' c, scan_record env tableId mappings record tr = (record', tr', c) ∧
    ((record' = record ∧ tr' = tr ∧ (c = Break ∨ c = Next ∨ ∃ e, c = Raise e)) ∨
     (record' = clear_coordinates record ∧ tr' = tr ∧ c = Next ∧
      has_cell Geocode record = true ∧ truthy (cell record Geocode) = true ∧
      truthy (cell record GeocodedAddress) = true) ∨
     ((record' = record ∧ truthy (cell record GeocodedAddress) = false ∧
         truthy (cell record Longitude) = false
       ∨ record' = clear_coordinates record ∧
         truthy (cell record GeocodedAddress) = true) ∧
      has_cell Geocode record = true ∧ truthy (cell record Geocode) = true ∧
      truthy (cell record Address) = true ∧
      rec_id record' = rec_id record ∧
      resolve env tableId mappings record' (cell record Address) tr = (tr', c))).
Proof.
  unfold scan_record, cache_policy.
  destruct (has_cell Geocode record); simpl; [|by eauto 10].
  destruct (truthy (cell record Geocode)); simpl; [|by eauto 10].
  destruct (truthy (cell record GeocodedAddress)) eqn:Hcache.
  - destruct (loose_eq _ _) as [[]|e]; [by eauto 10| |by eauto 12].
    destruct (clear_coordinates_cells record) as (-> & _). simpl.
    rewrite andb_true_r.
    destruct (truthy (cell record Address)); [|by eauto 12].
    destruct (resolve _ _ _ _ _ _) as [tr' c] eqn:Hres.
    do 3 eexists. split; [done|]. right. right. by eauto 12.
  - destruct (truthy (cell record Address)); simpl; [|by eauto 10].
    destruct (truthy (cell record Longitude)); simpl; [by eauto 10|].
    destruct (resolve _ _ _ _ _ _) as [tr' c] eqn:Hres.
    do 3 eexists. split; [done|]. right. right. by eauto 12.
Qed.

Lemma spaced_app ready tr ext :
  spaced ready (tr ++ ext) = spaced ready tr && spaced (ready_after ready tr) ext.
Proof.
  revert ready. induction tr as [|[]]; intros ready; simpl; rewrite ?IHtr; try done.
  by rewrite andb_assoc.
Qed.

Lemma ready_after_app ready tr ext :
  ready_after ready (tr ++ ext) = ready_after (ready_after ready tr) ext.
Proof. revert ready. induction tr as [|[]]; intros ready; simpl; by rewrite ?IHtr. Qed.

Lemma scan_record_spaced record tr record' tr' c :
  scan_record env tableId mappings record tr = (record', tr', c) →
  spaced true tr = true → ready_after true tr = true →
  spaced true tr' = true ∧ (c = Next ∨ c = Break → ready_after true tr' = true).
Proof.
  intros Hrec Hsp Hrd.
  destruct (scan_record_cases record tr) as (r1 & tr1 & c1 & Hrec' & Hcases).
  rewrite Hrec in Hrec'. injection Hrec' as <- <- <-.
  destruct Hcases as [(_ & -> & _)|[(_ & -> & _)|(_ & _ & _ & _ & _ & Hres)]];
    [done|done|].
  destruct (resolve_cases record' (cell record Address) tr) as (tr2 & c2 & Hres' & Hc).
  rewrite Hres in Hres'. injection Hres' as <- <-.
  destruct Hc as [(e & -> & ->)|[(e & fields & -> & ->)|(fields & -> & ->)]];
    rewrite spaced_app, ?ready_after_app, Hsp, Hrd; simpl; split; try done;
    by intros [?|?].
Qed.

(** X5.  The scanner respects the geocoder's rate limit.  Starting after a
    delay (or from the start), it never makes a geocode request without a
    one-second delay since the previous one; and when the scan completes
    without failure it ends after a delay, so that completed scans run one
    after the other keep the limit too. *)
Theorem scan_respects_rate_limit records tr :
  spaced true tr = true → ready_after true tr = true →
  let '(_, tr', r) := scan_loop env tableId mappings records tr in
  spaced true tr' = true ∧ (r = Ok () → ready_after true tr' = true).
Proof.
  revert tr. induction records as [|record records IH]; intros tr Hsp Hrd; simpl.
  - done.
  - destruct (scan_record env tableId mappings record tr) as [[record' tr1] c] eqn:Hrec.
    destruct (scan_record_spaced _ _ _ _ _ Hrec Hsp Hrd) as [Hsp1 Hrd1].
    destruct c as [| |e].
    + specialize (IH tr1 Hsp1 (Hrd1 (or_introl eq_refl))).
      by destruct (scan_loop env tableId mappings records tr1) as [[? ?] ?].
    + split; [done|]. intros _. apply Hrd1. by right.
    + by split.
Qed.

(** X6.  The scan never changes the shape of the batch: it returns the same
    records in the same order, each one either untouched or with exactly
    its Longitude, Latitude and GeoJSON set to null; a record is cleared
    only if its Geocode flag is set and it carries a cached address. *)
Theorem scan_only_clears_coordinates records tr :
  Forall2 (fun r r' =>
             r' = r ∨
             (r' = clear_coordinates r ∧ truthy (cell r Geocode) = true ∧
              truthy (cell r GeocodedAddress) = true))
    records (scan_loop env tableId mappings records tr).1.1.
Proof.
  revert tr. induction records as [|record records IH]; intros tr; simpl.
  - constructor.
  - destruct (scan_record_cases record tr) as (r1 & tr1 & c1 & Hrec & Hcases).
    rewrite Hrec.
    assert (r1 = record ∨
            (r1 = clear_coordinates record ∧ truthy (cell record Geocode) = true ∧
             truthy (cell record GeocodedAddress) = true)) as Hr1.
    { destruct Hcases as [(-> & _)|[(-> & _ & _ & _ & ? & ?)|
        ([(-> & _)|(-> & ?)] & _ & ? & _)]]; auto. }
    assert (Forall2 (fun r r' =>
               r' = r ∨
               (r' = clear_coordinates r ∧ truthy (cell r Geocode) = true ∧
                truthy (cell r GeocodedAddress) = true)) records records) as Hid.
    { clear. induction records; constructor; auto. }
    destruct c1 as [| |e]; simpl.
    + specialize (IH tr1).
      destruct (scan_loop env tableId mappings records tr1) as [[? ?] ?].
      by constructor.
    + by constructor.
    + by constructor.
Qed.

(** X7.  Every effect of a scan concerns the batch: the trace only grows,
    and each new event is a geocode request for the non-empty address of a
    record of the batch, a write to a row of the batch in the scanned
    table, or the fixed one-second delay. *)
Theorem scan_effects_concern_batch records tr :
  ∃ ext, (scan_loop env tableId mappings records tr).1.2 = tr ++ ext ∧
         Forall (event_of_batch tableId records) ext.
Proof.
  assert (∀ all pre, all = pre ++ records →
            ∃ ext, (scan_loop env tableId mappings records tr).1.2 = tr ++ ext ∧
                   Forall (event_of_batch tableId all) ext) as Hgen.
  { intros all. revert tr.
    induction records as [|record records IH]; intros tr pre Hall; simpl.
    - exists []. by rewrite app_nil_r.
    - destruct (scan_record_cases record tr) as (r1 & tr1 & c1 & Hrec & Hcases).
      rewrite Hrec.
      assert (record ∈ all) as Hin.
      { rewrite Hall, elem_of_app, elem_of_cons. auto. }
      assert (∃ ext1, tr1 = tr ++ ext1 ∧ Forall (event_of_batch tableId all) ext1)
        as (ext1 & -> & Hext1).
      { destruct Hcases as [(_ & -> & _)|[(_ & -> & _)|
          (Hr1 & _ & _ & Haddr & Hid & Hres)]];
          [exists []; by rewrite app_nil_r|exists []; by rewrite app_nil_r|].
        destruct (resolve_cases r1 (cell record Address) tr)
          as (tr2 & c2 & Hres' & Hc).
        rewrite Hres in Hres'. injection Hres' as <- <-.
        assert (event_of_batch tableId all (EvGeocode (cell record Address))) as Hg
          by (split; [done|by exists record]).
        assert (∀ fields, event_of_batch tableId all
                            (EvUpdateRecord tableId (rec_id r1) fields)) as Hu
          by (intros fields; split; [done|by exists record]).
        destruct Hc as [(e & -> & _)|[(e & fields & -> & _)|(fields & -> & _)]];
          eexists; (split; [reflexivity|]);
          repeat (apply List.Forall_cons;
                  [first [exact Hg | apply Hu | reflexivity]|]);
          apply List.Forall_nil. }
      destruct c1 as [| |e]; simpl; [|by eauto|by eauto].
      destruct (IH (tr ++ ext1) (pre ++ [record])) as (ext2 & Hext2 & Hall2);
        [by rewrite <-app_assoc|].
      destruct (scan_loop env tableId mappings records (tr ++ ext1)) as [[? tr3] ?].
      simpl in *. exists (ext1 ++ ext2). rewrite Hext2, app_assoc.
      split; [done|]. by apply Forall_app. }
  by apply (Hgen records []).
Qed.

(** X8.  The scanner makes no request for a record unless it has to: any
    iteration that reaches the outside world is for a record with the
    Geocode flag set and a non-empty address whose longitude is empty or
    whose cached address is set (and differs).  In particular a record
    that has a longitude and no cached address is neither geocoded nor
    changed. *)
Theorem scan_requests_only_when_needed record tr :
  (∀ record' tr' c,
     scan_record env tableId mappings record tr = (record', tr', c) →
     tr' ≠ tr →
     has_cell Geocode record = true ∧ truthy (cell record Geocode) = true ∧
     truthy (cell record Address) = true ∧
     (truthy (cell record Longitude) = false ∨
      truthy (cell record GeocodedAddress) = true)) ∧
  (truthy (cell record GeocodedAddress) = false →
   truthy (cell record Longitude) = true →
   ∃ c, scan_record env tableId mappings record tr = (record, tr, c) ∧
        (c = Next ∨ c = Break)).
Proof.
  destruct (scan_record_cases record tr) as (r1 & tr1 & c1 & Hrec & Hcases).
  split.
  - intros record' tr' c Hrec' Hne. rewrite Hrec in Hrec'.
    injection Hrec' as <- <- <-.
    destruct Hcases as [(_ & -> & _)|[(_ & -> & _)|
      (Hr1 & ? & ? & ? & _ & _)]]; [done|done|].
    repeat split; try done. destruct Hr1 as [(_ & _ & ?)|(_ & ?)]; auto.
  - intros Hcache Hlng. rewrite Hrec.
    destruct Hcases as [(-> & -> & [->|[->|[e ->]]])|[(_ & _ & _ & _ & _ & ?)|
      ([(_ & _ & ?)|(_ & ?)] & _)]]; try congruence; eauto.
    exfalso. revert Hrec. unfold scan_record, cache_policy. rewrite Hcache.
    destruct (has_cell Geocode record); simpl; [|done].
    destruct (truthy (cell record Geocode)); simpl; [|done].
    rewrite Hlng, andb_false_r. done.
Qed.

(** X9.  A lookup that finds nothing is recorded, not retried: when the
    geocoder returns no hit, the scanner still writes the row back, with
    Longitude and Latitude null and the cache column set to the address
    just tried, and then waits. *)
Theorem no_hit_is_written_back record address tr kLng kLat kCache :
  mapping mappings Longitude = VStr kLng →
  mapping mappings Latitude = VStr kLat →
  mapping mappings GeocodedAddress = VStr kCache → kCache ≠ "" →
  geocoder_geocode env (tr ++ [EvGeocode address]) = Ok (VArr []) →
  let update := EvUpdateRecord tableId (rec_id record)
                  (<[kCache := address]> (<[kLat := VNull]> (<[kLng := VNull]> ∅))) in
  applyUserActions env (tr ++ [EvGeocode address; update]) = Ok () →
  resolve env tableId mappings record address tr
  = (tr ++ [EvGeocode address; update; EvDelay 1000], Next).
Proof.
  intros HLng HLat HCache Hne Hgeo update Happly.
  unfold resolve, geocode. rewrite Hgeo. simpl.
  unfold update_fields, has_mapping. rewrite HLng, HLat, HCache. simpl.
  assert (bool_decide (is_Some (mappings !! GeocodedAddress)) = true) as ->.
  { apply bool_decide_eq_true. unfold mapping in HCache.
    destruct (mappings !! GeocodedAddress); [by eexists|done]. }
  apply String.eqb_neq in Hne. rewrite Hne. simpl.
  change (opt_prop_or_null VUndef "lat") with VNull.
  change (opt_prop_or_null VUndef "lng") with VNull.
  fold update. rewrite <-!app_assoc. simpl. by rewrite Happly.
Qed.

(** X10.  [scanOnNeed] starts nothing when a scan is in flight, when no
    table is selected or no records are known, and a scan without write
    access does nothing: in all these cases the state, the records and the
    trace are unchanged.  Whenever no scan was in flight before, none is
    afterwards, whether the scan completed or failed. *)
Theorem scanOnNeed_guards m st :
  (writeAccess st = false ∨ scanning st = true ∨
   selectedTableId st = None ∨ selectedRecords st = None →
   scanOnNeed env m st = st) ∧
  (scanning st = false →
   scanning (scanOnNeed env m st) = false ∧
   writeAccess (scanOnNeed env m st) = writeAccess st ∧
   selectedTableId (scanOnNeed env m st) = selectedTableId st).
Proof.
  split.
  - intros Hg. unfold scanOnNeed, scan.
    destruct (scanning st) eqn:Hsc; [done|].
    destruct (selectedTableId st) as [t|] eqn:Ht; [|done].
    destruct (selectedRecords st) as [rs|] eqn:Hr; [|done].
    destruct Hg as [Hwa|[?|[?|?]]]; try done.
    rewrite Hwa. simpl. destruct st; simpl in *. congruence.
  - intros Hsc. unfold scanOnNeed. rewrite Hsc.
    destruct (selectedTableId st) as [t|] eqn:Ht; [|done].
    destruct (selectedRecords st) as [rs|]; [|by rewrite Ht].
    by destruct (scan env (writeAccess st) t rs m (trace st)) as [[? ?] ?].
Qed.

End ScannerMore.

Lemma scan_respects_rate_limit_witness :
  let '(_, tr', r) :=
    @scan_loop sample_host sample_env "Places" sample_mappings
      [sample_pending 1 "Bern"; sample_pending 2 "Basel"] [] in
  spaced true tr' = true ∧ (r = Ok () → ready_after true tr' = true).
Proof.
  exact (@scan_respects_rate_limit sample_host sample_env "Places" sample_mappings
           [sample_pending 1 "Bern"; sample_pending 2 "Basel"] [] eq_refl eq_refl).
Defined.

Lemma scan_requests_only_when_needed_witness :
  ∃ c, @scan_record sample_host sample_env "Places" sample_mappings sample_located []
       = (sample_located, [], c) ∧ (c = Next ∨ c = Break).
Proof.
  apply (@scan_requests_only_when_needed sample_host sample_env "Places"
           sample_mappings sample_located []); reflexivity.
Defined.

Lemma no_hit_is_written_back_witness :
  @resolve sample_host sample_env_no_hit "Places" sample_mappings
     (sample_pending 1 "Bern") (VStr "Bern") []
  = ([EvGeocode (VStr "Bern");
      EvUpdateRecord "Places" 1
        (<["Cache" := VStr "Bern"]> (<["Lat" := VNull]> (<["Lon" := VNull]> ∅)));
      EvDelay 1000], Next).
Proof.
  apply (@no_hit_is_written_back sample_host sample_env_no_hit "Places"
           sample_mappings (sample_pending 1 "Bern") (VStr "Bern") []
           "Lon" "Lat" "Cache"); try reflexivity.
  discriminate.
Defined.

Lemma scanOnNeed_guards_witness :
  @scanOnNeed sample_host sample_env sample_mappings
     (mkScanState true true (Some "Places") (Some [sample_pending 1 "Bern"]) [])
  = mkScanState true true (Some "Places") (Some [sample_pending 1 "Bern"]) [].
Proof.
  apply (@scanOnNeed_guards sample_host sample_env sample_mappings).
  right. left. reflexivity.
Defined.

(** ** Legacy mappings *)

(** X11.  Without mappings from the host (legacy mode) the scanner writes
    its result to the columns named Longitude and Latitude, and to the
    column GeocodedAddress exactly when the record the default mapping is
    built from has that field; mappings given by the host are used as they
    are. *)
Theorem legacy_mapping_write_back `{JsHost} record result address :
  update_fields (defaultMapping record None) result address
  = Ok (let base := <["Latitude" := opt_prop_or_null result "lat"]>
                      (<["Longitude" := opt_prop_or_null result "lng"]> ∅) in
        if hasCol GeocodedAddress record
        then <["GeocodedAddress" := address]> base else base) ∧
  ∀ m, defaultMapping record (Some m) = m.
Proof.
  split; [|done].
  assert (defaultMapping record None !! Longitude = Some (VStr Longitude)) as HLng
    by reflexivity.
  assert (defaultMapping record None !! Latitude = Some (VStr Latitude)) as HLat
    by reflexivity.
  assert (defaultMapping record None !! GeocodedAddress
          = Some (if hasCol GeocodedAddress record then VStr GeocodedAddress else VNull))
    as HCache by reflexivity.
  unfold update_fields, mapping, has_mapping.
  rewrite HLng, HLat, HCache. simpl.
  by destruct (hasCol GeocodedAddress record).
Qed.

(** ** Popups and cell values *)

Section PopupMore.
Context `{JsHost}.

Lemma append_assoc (a b c : string) : (a +:+ b) +:+ c = a +:+ (b +:+ c).
Proof.
  induction a as [|x a IH]; [done|].
  transitivity (String x ((a +:+ b) +:+ c)); [reflexivity|]. by rewrite IH.
Qed.

(** X12.  Without popup columns the popup is just the sanitized name: when
    there are no mappings, when the Popup role is absent, null or an empty
    list, and when the raw record of the row is unknown,
    [buildPopupContent] returns the sanitizer's output on the name
    converted to a string (on the name itself when it is a string), and on
    the empty string when the name is absent or empty; it fails only if
    that conversion does. *)
Theorem popup_falls_back_to_name name rawRec mappings :
  (mappings = None ∨ rawRec = None ∨
   ∃ m, mappings = Some m ∧
        (has_mapping Popup m = false ∨ truthy (mapping m Popup) = false ∨
         mapping m Popup = VArr [])) →
  (truthy name = false →
   buildPopupContent name rawRec mappings = Ok (DOMPurify_sanitize "")) ∧
  (truthy name = true →
   buildPopupContent name rawRec mappings
   = match ToString name with
     | Ok text => Ok (DOMPurify_sanitize text)
     | Throw e => Throw e
     end) ∧
  (∀ text, name = VStr text →
           buildPopupContent name rawRec mappings = Ok (DOMPurify_sanitize text)).
Proof.
  intros Hcase.
  assert (buildPopupContent name rawRec mappings
          = match ToString (if truthy name then name else VStr "") with
            | Ok text => Ok (DOMPurify_sanitize text)
            | Throw e => Throw e
            end) as ->.
  { unfold buildPopupContent.
    destruct mappings as [m|]; [|done]. destruct rawRec as [raw|]; [|done].
    destruct Hcase as [?|[?|(m' & [= <-] & Hm)]]; [done|done|].
    destruct Hm as [->|[->|Hm]]; [done|by rewrite andb_false_r|].
    unfold popup_columns. rewrite Hm. by destruct (has_mapping Popup m). }
  split; [|split].
  - by intros ->.
  - by intros ->.
  - intros text ->. simpl. destruct (String.eqb_spec text ""); by subst.
Qed.

(** X13.  The loop over the popup columns only appends: whatever markup
    was built before it is kept as a prefix, and the rows it adds do not
    depend on that markup; a failure does not depend on it either. *)
Theorem popup_rows_append raw cols html :
  popup_rows raw cols html
  = (rows ← popup_rows raw cols ""; Ok (html +:+ rows)).
Proof.
  revert html. induction cols as [|col cols IH]; intros html.
  - simpl. f_equal. induction html as [|x html IHh]; [done|].
    transitivity (String x (html +:+ "")); [by rewrite <-IHh|reflexivity].
  - cbn [popup_rows].
    destruct (ToString col) as [key|]; simpl; [|done].
    destruct (parseValue (raw_get raw key)) as [val|]; simpl; [|done].
    destruct (nullish val || is_str val ""); [apply IH|].
    destruct (ToString val) as [sval|]; simpl; [|done].
    rewrite IH. rewrite (IH ("" +:+ _)).
    destruct (popup_rows raw cols "") as [rows|]; simpl; [|done].
    f_equal. by rewrite !append_assoc.
Qed.

(** X14.  [parseValue] returns a cell unchanged unless it is an object with
    a truthy [value] member: primitives, arrays, objects without [value]
    and objects whose [value] is a string not starting with "V(" pass
    through.  For a difference marker "V(...)" whose payload parses to an
    object or array, the first truthy of [remote], [local] and [parent] is
    returned, and the payload itself when none is. *)
Theorem parseValue_passes_or_picks v :
  ((is_object v = false ∨ truthy (prop v "value") = false ∨
    ∃ s, prop v "value" = VStr s ∧ String.prefix "V(" s = false) →
   parseValue v = Ok v) ∧
  (∀ s payload,
     is_object v = true → prop v "value" = VStr s → String.prefix "V(" s = true →
     JSON_parse (String.substring 2 (String.length s - 1 - 2) s) = Ok payload →
     is_object payload = true →
     parseValue v
     = Ok (if truthy (prop payload "remote") then prop payload "remote"
           else if truthy (prop payload "local") then prop payload "local"
           else if truthy (prop payload "parent") then prop payload "parent"
           else payload)).
Proof.
  split.
  - intros [Hv|[Hv|(s & Hs & Hp)]]; unfold parseValue.
    + by rewrite Hv.
    + by rewrite Hv, andb_false_r.
    + rewrite Hs, Hp. by destruct (is_object v && _).
  - intros s payload Hv Hs Hp Hparse Hobj. unfold parseValue.
    assert (truthy (prop v "value") = true) as Ht.
    { rewrite Hs. by destruct s. }
    rewrite Hv, Ht, Hs, Hp. simpl. rewrite Hparse. simpl.
    destruct payload; try done; unfold prop; simpl.
    by destruct (truthy (alist_get "remote" fields)),
      (truthy (alist_get "local" fields)), (truthy (alist_get "parent" fields)).
Qed.

End PopupMore.

Lemma popup_falls_back_to_name_witness :
  @buildPopupContent sample_host (VStr "Bern") (Some (sample_named 1 "Bern" VNull VNull))
     (Some {[ "Popup" := VArr [] ]})
  = Ok "Bern".
Proof.
  destruct (@popup_falls_back_to_name sample_host (VStr "Bern")
              (Some (sample_named 1 "Bern" VNull VNull))
              (Some {[ "Popup" := VArr [] ]})) as (_ & _ & Hname).
  - right. right. exists {[ "Popup" := VArr [] ]}. split; [reflexivity|].
    right. right. reflexivity.
  - exact (Hname "Bern" eq_refl).
Defined.

Lemma parseValue_passes_or_picks_witness :
  @parseValue sample_host (VArr [VInt 1]) = Ok (VArr [VInt 1]) ∧
  @parseValue (sample_diff_host (VObj [("local", VInt 5); ("parent", VInt 4)]))
     sample_diff_cell = Ok (VInt 5).
Proof.
  split.
  - apply (@parseValue_passes_or_picks sample_host). right. left. reflexivity.
  - exact (proj2 (@parseValue_passes_or_picks
                    (sample_diff_host (VObj [("local", VInt 5); ("parent", VInt 4)]))
                    sample_diff_cell) "V(payload)"
             (VObj [("local", VInt 5); ("parent", VInt 4)])
             eq_refl eq_refl eq_refl eq_refl eq_refl).
Defined.

(** ** Cluster badges *)

(** X15.  The cluster badge class is "marker-cluster marker-cluster-SIZE"
    with SIZE small below 10 children, medium below 100 and large from 100
    on, followed by " marker-cluster-selected" exactly when the getter
    returned a marker that is among the cluster's children; a getter or a
    child listing that fails gives the unselected class instead of a
    failure. *)
Theorem cluster_badge_class getter cluster :
  let n := getChildCount cluster in
  ∃ size sel,
    className (selectedRowClusterIconFactory getter cluster)
    = "marker-cluster marker-cluster-" +:+ size +:+
      (if sel : bool then " marker-cluster-selected" else "") ∧
    (n < 10 → size = "small") ∧
    (10 ≤ n < 100 → size = "medium") ∧
    (100 ≤ n → size = "large") ∧
    (sel = true ↔ ∃ m children, getter = Ok (Some m) ∧
                                getAllChildMarkers cluster = Ok children ∧
                                m ∈ children).
Proof.
  intros n. unfold selectedRowClusterIconFactory. fold n.
  set (sel := match _ ≫= _ with Ok b => b | Throw _ => false end).
  assert (sel = true ↔ ∃ m children, getter = Ok (Some m) ∧
                                     getAllChildMarkers cluster = Ok children ∧
                                     m ∈ children) as Hsel.
  { subst sel.
    destruct getter as [[m|]|], (getAllChildMarkers cluster) as [children|]; simpl;
      try (split; [done|intros (? & ? & ? & ? & _); congruence]).
    rewrite negb_true_iff, Nat.eqb_neq.
    assert (length (List.filter (Nat.eqb m) children) ≠ 0 ↔ m ∈ children) as ->.
    { induction children as [|x children IH]; simpl.
      - split; [done|]. by intros ?%elem_of_nil.
      - rewrite elem_of_cons. destruct (Nat.eqb_spec m x); simpl.
        + split; [by left|lia].
        + rewrite IH. split; [by right|by intros [?|?]]. }
    split; [by eauto|]. by intros (? & ? & [= <-] & [= <-] & ?). }
  exists (if n <? 10 then "small" else if n <? 100 then "medium" else "large"), sel.
  split; [by destruct (n <? 10), (n <? 100), sel|].
  repeat split; try apply Hsel.
  - intros Hn. apply Nat.ltb_lt in Hn. by rewrite Hn.
  - intros [Hn1 Hn2]. apply Nat.ltb_ge in Hn1. apply Nat.ltb_lt in Hn2.
    by rewrite Hn1, Hn2.
  - intros Hn. assert ((n <? 10) = false) as -> by (apply Nat.ltb_ge; lia).
    apply Nat.ltb_ge in Hn. by rewrite Hn.
Qed.

Lemma cluster_badge_class_witness :
  ∃ size sel,
    className (selectedRowClusterIconFactory (Ok (Some 4)) (mkCluster 12 (Ok [3; 4])))
    = "marker-cluster marker-cluster-" +:+ size +:+
      (if sel : bool then " marker-cluster-selected" else "") ∧
    size = "medium" ∧ sel = true.
Proof.
  destruct (cluster_badge_class (Ok (Some 4)) (mkCluster 12 (Ok [3; 4])))
    as (size & sel & Hclass & _ & Hmedium & _ & Hsel).
  exists size, sel. split; [exact Hclass|]. split.
  - apply Hmedium. simpl. lia.
  - apply Hsel. exists 4, [3; 4]. repeat split. rewrite !elem_of_cons. by right; left.
Defined.

(** ** Grouped layer control *)

Lemma forallb_input_checked items :
  forallb input_checked items = true
  ↔ Forall (fun c => input_checked c = true) items.
Proof. by rewrite forallb_forall, List.Forall_forall. Qed.

Lemma existsb_input_checked items :
  existsb input_checked items = true
  ↔ Exists (fun c => input_checked c = true) items.
Proof. by rewrite existsb_exists, List.Exists_exists. Qed.

Lemma forallb_input_unchecked items :
  forallb input_checked items = false
  ↔ Exists (fun c => input_checked c = false) items.
Proof.
  induction items as [|c items IH]; simpl.
  - split; [done|]. by intros ?%Exists_nil.
  - rewrite Exists_cons, <-IH. destruct (input_checked c); simpl.
    + split; [by right|by intros [?|?]].
    + split; [by left|done].
Qed.

(** X16.  The group checkbox is tri-state: after [_updateGroupCb] it is
    checked exactly when every child is checked, indeterminate exactly
    when some child is checked and some is not, and never both; a group
    without children is checked. *)
Theorem group_checkbox_tristate items :
  let '(checked, indeterminate) := updateGroupCb items in
  (checked = true ↔ Forall (fun c => input_checked c = true) items) ∧
  (indeterminate = true ↔
     Exists (fun c => input_checked c = true) items ∧
     Exists (fun c => input_checked c = false) items) ∧
  (checked && indeterminate = false).
Proof.
  unfold updateGroupCb.
  pose proof (forallb_input_checked items) as Hall.
  pose proof (existsb_input_checked items) as Hsome.
  split; [done|]. split;
    [|by destruct (forallb _ _), (existsb _ _)].
  by rewrite andb_true_iff, negb_true_iff, Hsome, forallb_input_unchecked.
Qed.

(** X17.  The handlers keep the control and the map in step: after the
    change handler of a child or of the group, every checkbox still agrees
    with the presence of its layer (if it did before).  After a child's
    handler the group checkbox is checked exactly when all layers of the
    group are on the map; after the group's handler all its layers are on
    the map or all are off, as the group checkbox says. *)
Theorem group_handlers_mirror_map g :
  mirrors_map g →
  (∀ i checked,
     mirrors_map (child_change i checked g) ∧
     (group_checked (child_change i checked g) = true
      ↔ Forall (fun c => layer_on_map c = true) (childItems (child_change i checked g)))) ∧
  (∀ checked,
     mirrors_map (group_change checked g) ∧
     group_indeterminate (group_change checked g) = false ∧
     Forall (fun c => layer_on_map c = checked ∧ input_checked c = checked)
       (childItems (group_change checked g))).
Proof.
  intros Hm. split.
  - intros i checked. unfold child_change.
    set (items := alter _ i (childItems g)).
    assert (Forall (fun c => input_checked c = layer_on_map c) items) as Hitems.
    { subst items. apply list.Forall_forall. intros c Hc.
      apply list_elem_of_lookup in Hc as [j Hj].
      destruct (decide (i = j)) as [->|Hne].
      - rewrite list_lookup_alter, decide_True in Hj by done.
        destruct (childItems g !! j); simpl in Hj; [|discriminate Hj].
        injection Hj as <-. reflexivity.
      - rewrite list_lookup_alter_ne in Hj by done.
        eapply (proj1 (list.Forall_forall _ _) Hm), list_elem_of_lookup_2, Hj. }
    unfold updateGroupCb. simpl.
    split; [exact Hitems|]. rewrite forallb_input_checked.
    rewrite !list.Forall_forall.
    split; intros Hall x Hx;
      pose proof (proj1 (list.Forall_forall _ _) Hitems x Hx) as Heq;
      specialize (Hall x Hx); simpl in *; congruence.
  - intros checked. unfold group_change, mirrors_map. simpl.
    split; [|split; [done|]]; apply Forall_fmap, list.Forall_forall; by intros.
Qed.

Lemma group_handlers_mirror_map_witness :
  group_checked (child_change 1 false sample_group) = false ∧
  group_indeterminate (child_change 1 false sample_group) = true ∧
  mirrors_map (child_change 1 false sample_group).
Proof.
  assert (mirrors_map sample_group) as Hm by (repeat constructor).
  destruct (group_handlers_mirror_map sample_group Hm) as [Hchild _].
  destruct (Hchild 1 false) as [Hmirror _].
  split; [reflexivity|]. split; [reflexivity|exact Hmirror].
Defined.

(** ** Layer control *)

(** X18.  A layer control is added exactly when there are at least two
    distinct overlay names among the main and the auxiliary groups.  It is
    the two-level control exactly when, in addition, layer mode is on and
    there are at least two main groups: the main groups then sit under the
    one parent named by the Layer column and the auxiliary layers stand
    alone.  Otherwise it is flat and lists every overlay once, an
    auxiliary layer taking the place of a main group of the same name. *)
Theorem layer_control_shape {L : Type} (mainLayerGroups additionalLayerGroups : gmap string L)
    (isLayerMode : bool) (layerGroupName : string) :
  let control := addLayerControl mainLayerGroups additionalLayerGroups
                   isLayerMode layerGroupName in
  let names := dom mainLayerGroups ∪ dom additionalLayerGroups in
  (control = NoControl ↔ size names ≤ 1) ∧
  (isLayerMode = true → 2 ≤ size mainLayerGroups →
   control = GroupedControl {[layerGroupName := mainLayerGroups]} additionalLayerGroups) ∧
  (2 ≤ size names → (isLayerMode = false ∨ size mainLayerGroups ≤ 1) →
   ∃ overlays, control = FlatControl overlays ∧ dom overlays = names ∧
     (∀ k v, additionalLayerGroups !! k = Some v → overlays !! k = Some v) ∧
     (∀ k, additionalLayerGroups !! k = None → overlays !! k = mainLayerGroups !! k)).
Proof.
  intros control names.
  assert (size (additionalLayerGroups ∪ mainLayerGroups) = size names) as Hsize.
  { rewrite <-size_dom, dom_union_L. subst names. f_equal. apply (comm_L (∪)). }
  subst control. unfold addLayerControl. rewrite Hsize.
  split; [|split].
  - destruct (Nat.leb_spec (size names) 1) as [Hle|Hgt]; [done|].
    split; [|lia]. by destruct (isLayerMode && _).
  - intros -> Hmain.
    assert (size mainLayerGroups ≤ size names) as Hle.
    { rewrite <-size_dom. apply subseteq_size. subst names. set_solver. }
    destruct (Nat.leb_spec (size names) 1); [lia|].
    destruct (Nat.ltb_spec 1 (size mainLayerGroups)); [done|lia].
  - intros Hnames Hflat.
    destruct (Nat.leb_spec (size names) 1); [lia|].
    assert (isLayerMode && (1 <? size mainLayerGroups) = false) as ->.
    { destruct Hflat as [->|Hm]; [done|].
      destruct (Nat.ltb_spec 1 (size mainLayerGroups)); [lia|by rewrite andb_false_r]. }
    eexists. split; [done|]. split; [|split].
    + rewrite dom_union_L. subst names. apply (comm_L (∪)).
    + intros k v Hk. by apply lookup_union_Some_l.
    + intros k Hk. by rewrite lookup_union_r.
Qed.

Lemma layer_control_shape_witness :
  addLayerControl (L := nat) {[ "Roads" := 1; "Parks" := 2 ]} {[ "Aux" := 3 ]} true "Layer"
  = GroupedControl {[ "Layer" := {[ "Roads" := 1; "Parks" := 2 ]} ]} {[ "Aux" := 3 ]}.
Proof.
  apply (layer_control_shape (L := nat) {[ "Roads" := 1; "Parks" := 2 ]}
           {[ "Aux" := 3 ]} true "Layer").
  - reflexivity.
  - vm_compute. lia.
Defined.

(** ** Highlighting *)

Section HighlightMore.
Context `{JsHost}.

Lemma make_marker_shape sel raws mappings info m :
  make_marker sel raws mappings info = Ok m →
  marker_id m = Info.id info ∧
  (icon m = selectedIcon ↔ sel = Some (Info.id info)) ∧
  (options_pane m = "selectedMarker" ↔ sel = Some (Info.id info)) ∧
  pane m = None.
Proof.
  unfold make_marker.
  destruct (new_LatLng _ _) as [pt|]; simpl; [|done].
  destruct (buildPopupContent _ _ _) as [html|]; simpl; [|done].
  intros [= <-]. simpl. by case_bool_decide.
Qed.

Lemma getInfo_id r info : getInfo r = Ok info → Info.id info = rec_id r.
Proof.
  unfold getInfo. intros Hinfo.
  repeat match type of Hinfo with
         | (?e ≫= _) = Ok _ => destruct e; simpl in Hinfo; [|discriminate Hinfo]
         end.
  by injection Hinfo as <-.
Qed.

Lemma pass_record_indexed sel raws mappings r b b' :
  pass_record sel raws mappings r b = Ok b' →
  indexed_and_highlighted sel b →
  indexed_and_highlighted sel b' ∧
  ∃ new, built_markers b' = built_markers b ++ new ∧
         sublist (marker_id <$> new) [rec_id r].
Proof.
  unfold pass_record.
  destruct (getInfo r) as [info|] eqn:Hinfo; simpl; [|done].
  apply getInfo_id in Hinfo.
  destruct (skipped info) as [[|]|]; simpl; [| |done].
  { intros [= <-] ?. split; [done|]. exists []. rewrite app_nil_r.
    split; [done|]. apply sublist_nil_l. }
  destruct (make_marker _ _ _ _) as [m|] eqn:Hm; simpl; [|done].
  apply make_marker_shape in Hm as (Hid & Hicon & Hpane & Hown).
  intros [= <-] (Hindex & Hmarkers & Hpoints). simpl.
  split; [|exists [m]; split; [done|]; simpl; by rewrite Hid, Hinfo].
  split; [|split]; simpl.
  - intros k m'. destruct (decide (Info.id info = k)) as [<-|Hne].
    + rewrite lookup_insert_eq. intros [= <-]. split; [done|].
      apply elem_of_app. right. by apply list_elem_of_singleton.
    + rewrite lookup_insert_ne by done. intros Hk.
      destruct (Hindex k m' Hk) as [? ?]. split; [done|].
      apply elem_of_app. by left.
  - apply Forall_app. split; [done|].
    apply list.Forall_cons. split; [|apply Forall_nil]. by rewrite Hid.
  - by rewrite Hpoints, fmap_app.
Qed.

Lemma pass_loop_indexed sel raws mappings data b b' :
  pass_loop sel raws mappings data b = Ok b' →
  indexed_and_highlighted sel b →
  indexed_and_highlighted sel b' ∧
  ∃ new, built_markers b' = built_markers b ++ new ∧
         sublist (marker_id <$> new) (rec_id <$> data).
Proof.
  revert b. induction data as [|r data IH]; intros b; simpl.
  - intros [= <-] ?. split; [done|]. exists []. by rewrite app_nil_r.
  - destruct (pass_record _ _ _ r b) as [b1|] eqn:Hr; simpl; [|done].
    intros Hloop Hb.
    destruct (pass_record_indexed _ _ _ _ _ _ Hr Hb) as (Hb1 & new1 & Hnew1 & Hsub1).
    destruct (IH _ Hloop Hb1) as (Hb' & new & Hnew & Hsub). split; [done|].
    exists (new1 ++ new). rewrite Hnew, Hnew1, <-app_assoc. split; [done|].
    rewrite fmap_app. by apply (sublist_app _ [rec_id r]).
Qed.

(** X19.  In coordinate mode, whatever the cells hold, when the pass
    completes, every entry of the popup index is a marker of the cluster
    group tagged with the entry's row id, the markers that carry the
    selected icon and pane are exactly those of the selected row, the bounds
    points are the markers' positions, and there is at most one marker per
    record: the markers are, in order, those of a selection of the records
    of the batch, each tagged with the row id of its record. *)
Theorem coordinate_pass_index_and_highlight sel raws mappings data built :
  isGeoJSONMode mappings = false →
  coordinate_pass sel raws mappings data = Ok (ShowMap built) →
  indexed_and_highlighted sel built ∧
  single_highlight sel (built_popups built) ∧
  sublist (marker_id <$> built_markers built) (rec_id <$> data) ∧
  length (built_markers built) ≤ length data.
Proof.
  intros _ Hrun. unfold coordinate_pass in Hrun.
  destruct data as [|first data]; [done|].
  destruct (has_expected_columns (first :: data)); [|done].
  destruct (pass_loop _ _ _ _ _) as [b|] eqn:Hloop; simpl in Hrun; [|done].
  injection Hrun as <-.
  destruct (pass_loop_indexed _ _ _ _ _ _ Hloop) as (Hb & new & Hnew & Hsub).
  { split; [|split]; [|apply Forall_nil|done].
    intros k m Hk. simpl in Hk. by rewrite lookup_empty in Hk. }
  simpl in Hnew. subst new.
  split; [done|]. split; [|split; [exact Hsub|]].
  - intros k m Hk Hicon. destruct Hb as (Hindex & Hmarkers & _).
    destruct (Hindex k m Hk) as [<- Hm].
    destruct (proj1 (list.Forall_forall _ _) Hmarkers m Hm) as [Hi _]. by apply Hi.
  - apply sublist_length in Hsub. by rewrite !length_fmap in Hsub.
Qed.

End HighlightMore.

Lemma coordinate_pass_index_and_highlight_witness :
  ∃ built,
    @coordinate_pass sample_host (Some 3%Z) sample_raw None sample_data
    = Ok (ShowMap built) ∧
    indexed_and_highlighted (Some 3%Z) built ∧
    single_highlight (Some 3%Z) (built_popups built) ∧
    sublist (marker_id <$> built_markers built) (rec_id <$> sample_data) ∧
    length (built_markers built) ≤ length sample_data.
Proof.
  eexists. split; [reflexivity|].
  apply (@coordinate_pass_index_and_highlight sample_host (Some 3%Z) sample_raw None
           sample_data).
  - reflexivity.
  - reflexivity.
Defined.

(** X20.  [selectMaker] keeps the highlight single: if only the marker of
    the selected row carries the selected icon, the same holds afterwards,
    for the same set of indexed rows; and selecting a row that has no
    marker leaves every marker with the default icon. *)
Theorem selectMaker_single_highlight id st :
  single_highlight (selectedRowId st) (popups st) →
  let st' := (selectMaker id st).2 in
  single_highlight (selectedRowId st') (popups st') ∧
  dom (popups st') = dom (popups st) ∧
  (popups st !! id = None →
   map_Forall (fun _ m => icon m = defaultIcon) (popups st')).
Proof.
  intros Hsingle.
  assert (map_Forall (fun _ m => icon m = defaultIcon) (popups (reset_previous_marker st))
          ∧ dom (popups (reset_previous_marker st)) = dom (popups st)
          ∧ selectedRowId (reset_previous_marker st) = selectedRowId st) as (Hreset & Hdom & Hsel).
  { assert (∀ k m, popups st !! k = Some m → selectedRowId st ≠ Some k →
                   icon m = defaultIcon) as Hothers.
    { intros k m Hk Hne. specialize (Hsingle k m Hk). simpl in Hsingle.
      destruct (icon m); [done|]. by destruct Hne; apply Hsingle. }
    unfold reset_previous_marker.
    destruct (selectedRowId st) as [sel|] eqn:Hs.
    - destruct (popups st !! sel) as [prev|] eqn:Hprev; simpl.
      + split; [|split; [|done]].
        * intros k m. rewrite lookup_insert_Some.
          intros [[<- <-]|[Hne Hk]]; [done|].
          apply (Hothers k m Hk). congruence.
        * apply dom_insert_lookup_L. by rewrite Hprev.
      + split; [|by rewrite Hs].
        intros k m Hk. apply (Hothers k m Hk). congruence.
    - split; [|by rewrite Hs].
      intros k m Hk. by apply (Hothers k m Hk). }
  intros st'. subst st'. unfold selectMaker.
  destruct (popups (reset_previous_marker st) !! id) as [marker|] eqn:Hid; simpl.
  - split; [|split].
    + apply map_Forall_insert_2; [done|].
      intros k m Hk Hicon. by rewrite (Hreset k m Hk) in Hicon.
    + rewrite <-Hdom. apply dom_insert_lookup_L. by rewrite Hid.
    + intros Hnone. apply not_elem_of_dom in Hnone. rewrite <-Hdom in Hnone.
      apply not_elem_of_dom in Hnone. congruence.
  - split; [|split; [done|by intros _]].
    intros k m Hk Hicon. by rewrite (Hreset k m Hk) in Hicon.
Qed.

Lemma selectMaker_single_highlight_witness :
  single_highlight (selectedRowId (selectMaker 2 sample_map).2)
    (popups (selectMaker 2 sample_map).2) ∧
  selectedRowId (selectMaker 2 sample_map).2 = Some 2%Z.
Proof.
  split; [|reflexivity].
  apply (selectMaker_single_highlight 2 sample_map).
  unfold sample_map, single_highlight. simpl.
  repeat (apply map_Forall_insert_2; [by intros ?|]).
  apply map_Forall_empty.
Defined.

(** ** Column labels *)

Section ColumnLabelMore.
Context `{JsHost}.

Lemma label_loop_table ids colIds labels colId i start n :
  (∀ j, start ≤ j < i → is_str (default VUndef (colIds !! j)) colId = false) →
  is_str (default VUndef (colIds !! i)) colId = true →
  start ≤ i < start + n →
  label_loop (column_table ids colIds labels) colId (seq start n)
  = Ok (Some (if truthy (default VUndef (labels !! i))
              then default VUndef (labels !! i) else VStr colId)).
Proof.
  revert start. induction n as [|n IH]; intros start Hbefore Hat Hi; [lia|].
  simpl. destruct (decide (start = i)) as [->|Hne].
  - by rewrite Hat.
  - rewrite Hbefore by lia. apply IH; [|done|lia].
    intros j Hj. apply Hbefore. lia.
Qed.

Lemma label_loop_absent ids colIds labels colId idxs :
  Forall (fun c => is_str c colId = false) colIds →
  label_loop (column_table ids colIds labels) colId idxs = Ok None.
Proof.
  intros Hnone. induction idxs as [|i idxs IH]; [done|]. simpl.
  destruct (colIds !! i) as [c|] eqn:Hc; simpl; [|done].
  by rewrite (proj1 (list.Forall_forall _ _) Hnone c (list_elem_of_lookup_2 _ _ _ Hc)).
Qed.

Lemma loop_count_length (l : list JsVal) :
  loop_count (Num (inject_Z (Z.of_nat (length l)))) = length l.
Proof.
  unfold loop_count. rewrite Qceiling_Z. by rewrite Nat2Z.id.
Qed.

(** X21.  [getColumnLabel] always yields a label: the column id itself
    when the fetch fails, and otherwise either the column id or a truthy
    label.  On a column table, it is the label of the first column whose
    id is the given one, when that label is truthy, and the column id when
    the label is missing or empty or when no column has this id. *)
Theorem getColumnLabel_first_match fetchTable colId :
  (∀ e, fetchTable "_grist_Tables_column" = Throw e →
        getColumnLabel fetchTable colId = VStr colId) ∧
  (getColumnLabel fetchTable colId = VStr colId ∨
   truthy (getColumnLabel fetchTable colId) = true) ∧
  (∀ ids colIds labels,
     fetchTable "_grist_Tables_column" = Ok (column_table ids colIds labels) →
     (Forall (fun c => is_str c colId = false) colIds →
      getColumnLabel fetchTable colId = VStr colId) ∧
     (∀ i, i < length ids →
           colIds !! i = Some (VStr colId) →
           (∀ j, j < i → colIds !! j ≠ Some (VStr colId)) →
           getColumnLabel fetchTable colId
           = match labels !! i with
             | Some l => if truthy l then l else VStr colId
             | None => VStr colId
             end)).
Proof.
  split; [|split].
  - intros e He. unfold getColumnLabel. by rewrite He.
  - unfold getColumnLabel.
    destruct (_ ≫= _) as [[label|]|] eqn:Hrun; [|by left|by left].
    destruct (fetchTable _) as [colData|]; simpl in Hrun; [|done].
    destruct (get_prop colData "id") as [idsv|]; simpl in Hrun; [|done].
    destruct (get_prop idsv "length") as [len|]; simpl in Hrun; [|done].
    destruct (ToNumber len) as [n|]; simpl in Hrun; [|done].
    induction (seq 0 (loop_count n)) as [|i idxs IH]; simpl in Hrun; [done|].
    destruct (get_prop colData "colId") as [cs|]; simpl in Hrun; [|done].
    destruct (get_idx cs i) as [c|]; simpl in Hrun; [|done].
    destruct (is_str c colId); [|by apply IH].
    destruct (get_prop colData "label") as [ls|]; simpl in Hrun; [|done].
    destruct (get_idx ls i) as [l|]; simpl in Hrun; [|done].
    injection Hrun as <-. destruct (truthy l) eqn:Hl; [by right|by left].
  - intros ids colIds labels Hfetch. unfold getColumnLabel. rewrite Hfetch.
    change (Ok (column_table ids colIds labels) ≫= _)
      with (label_loop (column_table ids colIds labels) colId
              (seq 0 (loop_count (Num (inject_Z (Z.of_nat (length ids))))))).
    rewrite loop_count_length. split.
    + intros Hnone. by rewrite label_loop_absent.
    + intros i Hi Hat Hbefore.
      rewrite (label_loop_table ids colIds labels colId i 0 (length ids)).
      * destruct (labels !! i) as [l|]; simpl; [done|done].
      * intros j Hj. specialize (Hbefore j (proj2 Hj)).
        destruct (colIds !! j) as [[]|]; simpl; try done.
        apply not_true_iff_false. intros Heq%String.eqb_eq. by subst.
      * rewrite Hat. simpl. apply String.eqb_refl.
      * lia.
Qed.

End ColumnLabelMore.

Lemma getColumnLabel_first_match_witness :
  @getColumnLabel sample_host (fun _ => Ok sample_columns) "Layer" = VStr "Zone".
Proof.
  apply (proj2 (proj2 (proj2 (@getColumnLabel_first_match sample_host
                                (fun _ => Ok sample_columns) "Layer"))
                  [VInt 1; VInt 2; VInt 3]
                  [VStr "Name"; VStr "Layer"; VStr "Layer"]
                  [VStr "Name"; VStr "Zone"; VStr "Other"] eq_refl) 1).
  - simpl. lia.
  - reflexivity.
  - intros j Hj. assert (j = 0) as -> by lia. discriminate.
Defined.

(** ** Deselection *)




(** ** Auxiliary layers *)

Section LayersMore.
Context `{JsHost}.
Variable fetchTable : list JsVal → JsVal → Res JsVal.

Lemma config_usable_spec config :
  config_usable config
  = if nullish config then Throw TypeError else Ok (usable config).
Proof.
  unfold config_usable, usable.
  destruct config as [| |b|n|text|items|fields]; try done; simpl.
  unfold prop. simpl. destruct (truthy (alist_get "table" fields)); simpl; [|done].
  destruct (alist_get "columns" fields) as [| |b|n|text|items|cfields] eqn:Hc;
    simpl; try done.
  - by destruct b.
  - rewrite andb_false_r. by destruct n as [|q]; [|destruct (Qeq_bool q 0)].
  - rewrite andb_false_r. by destruct (String.eqb text "").
Qed.

Lemma layers_loop_plan configs fetched results :
  Forall (fun c => nullish c = false) configs →
  ∃ results',
    layers_loop fetchTable configs fetched results
    = (fetched ++ ((fun c => prop c "table") <$> List.filter usable configs),
       Ok results') ∧
    length results' ≤ length results + length (List.filter usable configs) ∧
    Forall (fun l => l ∈ results ∨
                     ∃ c, c ∈ configs ∧ usable c = true ∧ layerName l = configured_name c)
      results'.
Proof.
  intros Hconfigs. revert fetched results.
  induction Hconfigs as [|config configs Hc _ IH]; intros fetched results; simpl.
  - exists results. rewrite app_nil_r. split; [done|]. split; [lia|].
    apply list.Forall_forall. by left.
  - rewrite config_usable_spec, Hc. destruct (usable config) eqn:Hu.
    + set (results1 := match _ ≫= _ with Ok (Some _) => _ | _ => results end).
      destruct (IH (fetched ++ [prop config "table"]) results1) as (r & -> & Hlen & Hnames).
      exists r. rewrite <-app_assoc. split; [done|].
      assert (length results1 ≤ S (length results) ∧
              Forall (fun l => l ∈ results ∨ layerName l = configured_name config)
                results1) as [Hlen1 Hnames1].
      { subst results1. destruct (_ ≫= _) as [[layer|]|] eqn:Hlayer.
        - split; [rewrite length_app; simpl; lia|].
          apply Forall_app. split; [apply list.Forall_forall; by left|].
          apply list.Forall_cons. split; [|apply Forall_nil]. right.
          destruct (fetchTable _ _) as [tableData|]; simpl in Hlayer; [|done].
          unfold layer_of_table in Hlayer.
          destruct (truthy tableData); [|done].
          destruct (get_prop tableData "id") as [ids|]; simpl in Hlayer; [|done].
          destruct (truthy ids); [|done].
          unfold configured_name, prop.
          destruct (get_prop config "columns") as [columns|]; simpl in Hlayer; [|done].
          destruct (get_prop columns "GeoJSON"); simpl in Hlayer; [|done].
          destruct (get_prop columns "Name"); simpl in Hlayer; [|done].
          destruct (get_prop columns "Style"); simpl in Hlayer; [|done].
          destruct (get_prop ids "length"); simpl in Hlayer; [|done].
          destruct (ToNumber _); simpl in Hlayer; [|done].
          destruct (layer_rows _ _ _ _ _ _); simpl in Hlayer; [|done].
          destruct (get_prop config "layer"); simpl in Hlayer; [|done].
          destruct (get_prop config "table"); simpl in Hlayer; [|done].
          destruct (get_prop config "order"); simpl in Hlayer; [|done].
          destruct (get_prop config "interactive"); simpl in Hlayer; [|done].
          by injection Hlayer as <-.
        - split; [lia|]. apply list.Forall_forall. by left.
        - split; [lia|]. apply list.Forall_forall. by left. }
      split; [simpl; lia|].
      eapply list.Forall_impl; [exact Hnames|]. intros l [Hl|(c & Hin & Hcu & Hn)].
      * destruct (proj1 (list.Forall_forall _ _) Hnames1 l Hl) as [?|Hn]; [by left|].
        right. exists config. split; [apply elem_of_cons; by left|done].
      * right. exists c. split; [apply elem_of_cons; by right|done].
    + destruct (IH fetched results) as (r & -> & Hlen & Hnames).
      exists r. split; [done|]. split; [done|].
      eapply list.Forall_impl; [exact Hnames|]. intros l [Hl|(c & Hin & Hcu & Hn)].
      * by left.
      * right. exists c. split; [apply elem_of_cons; by right|done].
Qed.

Lemma layer_of_table_name config tableData layer :
  layer_of_table config tableData = Ok (Some layer) →
  layerName layer = configured_name config.
Proof.
  unfold layer_of_table, configured_name, prop. intros Hlayer.
  destruct (truthy tableData); [|done].
  destruct (get_prop tableData "id") as [ids|]; simpl in Hlayer; [|done].
  destruct (truthy ids); [|done].
  destruct (get_prop config "columns") as [columns|]; simpl in Hlayer; [|done].
  destruct (get_prop columns "GeoJSON"); simpl in Hlayer; [|done].
  destruct (get_prop columns "Name"); simpl in Hlayer; [|done].
  destruct (get_prop columns "Style"); simpl in Hlayer; [|done].
  destruct (get_prop ids "length"); simpl in Hlayer; [|done].
  destruct (ToNumber _); simpl in Hlayer; [|done].
  destruct (layer_rows _ _ _ _ _ _); simpl in Hlayer; [|done].
  destruct (get_prop config "layer"); simpl in Hlayer; [|done].
  destruct (get_prop config "table"); simpl in Hlayer; [|done].
  destruct (get_prop config "order"); simpl in Hlayer; [|done].
  destruct (get_prop config "interactive"); simpl in Hlayer; [|done].
  by injection Hlayer as <-.
Qed.

(** The layers come in the order of their configurations, at most one for
    each configuration that is fetched. *)
Lemma layers_loop_names configs fetched results results' tr :
  Forall (fun c => nullish c = false) configs →
  layers_loop fetchTable configs fetched results = (tr, Ok results') →
  ∃ new, results' = results ++ new ∧
         sublist (layerName <$> new) (configured_name <$> List.filter usable configs).
Proof.
  intros Hconfigs. revert fetched results.
  induction Hconfigs as [|config configs Hc _ IH]; intros fetched results; simpl.
  - intros [= _ <-]. exists []. by rewrite app_nil_r.
  - rewrite config_usable_spec, Hc. destruct (usable config) eqn:Hu; [|apply IH].
    intros Hloop. apply IH in Hloop as (new & -> & Hsub).
    destruct (_ ≫= _) as [[layer|]|] eqn:Hlayer.
    + exists (layer :: new). rewrite <-app_assoc. split; [done|].
      destruct (fetchTable _ _) as [tableData|]; simpl in Hlayer; [|done].
      rewrite fmap_cons, (layer_of_table_name _ _ _ Hlayer). simpl.
      by apply sublist_skip.
    + exists new. split; [done|]. simpl. by apply sublist_cons.
    + exists new. split; [done|]. simpl. by apply sublist_cons.
Qed.

Lemma layers_loop_null configs fetched results :
  Exists (fun c => nullish c = true) configs →
  (layers_loop fetchTable configs fetched results).2 = Throw TypeError.
Proof.
  intros Hnull. revert fetched results.
  induction configs as [|config configs IH]; intros fetched results.
  - by apply Exists_nil in Hnull.
  - simpl. rewrite config_usable_spec.
    destruct (nullish config) eqn:Hc; [done|].
    apply Exists_cons in Hnull as [Hnull|Hnull]; [congruence|].
    destruct (usable config); by apply IH.
Qed.

Lemma is_zero_length (items : list JsVal) :
  is_zero (prop (VArr items) "length") = match items with [] => true | _ => false end.
Proof. by destruct items. Qed.

(** X23.  The tables that [fetchAdditionalLayers] requests are decided by
    the configuration alone: over a list of configurations none of which
    is [null], it requests the table of every configuration that names a
    table and a GeoJSON column, in order and whatever the earlier requests
    gave, and requests nothing for the others; it then completes, with at
    most one layer per request, in the order of the requests, each named by
    the [layer] entry of its own configuration or else by its table: the
    names of the layers are, in order, those of a selection of the
    configurations fetched.  A [null] entry in the list makes the
    whole call fail. *)
Theorem additional_layers_fetch_plan configs :
  (Forall (fun c => nullish c = false) configs →
   (fetchAdditionalLayers fetchTable (VArr configs)).1
   = (fun c => prop c "table") <$> List.filter usable configs ∧
   ∃ results,
     (fetchAdditionalLayers fetchTable (VArr configs)).2 = Ok results ∧
     sublist (layerName <$> results) (configured_name <$> List.filter usable configs) ∧
     length results ≤ length (List.filter usable configs) ∧
     Forall (fun l => ∃ c, c ∈ configs ∧ usable c = true ∧
                           layerName l = configured_name c) results) ∧
  (Exists (fun c => nullish c = true) configs →
   (fetchAdditionalLayers fetchTable (VArr configs)).2 = Throw TypeError).
Proof.
  unfold fetchAdditionalLayers.
  change (truthy (VArr configs)) with true. cbv iota.
  rewrite is_zero_length. split.
  - intros Hconfigs. destruct configs as [|config configs].
    { split; [done|]. exists []. split; [done|]. split; [apply sublist_nil_l|].
      split; [done|apply Forall_nil]. }
    change (iterate (VArr (config :: configs))) with (Ok (config :: configs)). cbv iota.
    destruct (layers_loop_plan (config :: configs) [] [] Hconfigs)
      as (r & Hrun & Hlen & Hnames).
    destruct (layers_loop_names (config :: configs) [] [] r _ Hconfigs Hrun)
      as (new & -> & Hsub).
    rewrite Hrun. split; [done|]. exists new. split; [done|].
    split; [exact Hsub|]. split; [exact Hlen|].
    eapply list.Forall_impl; [exact Hnames|]. intros l [Hl|?]; [|done].
    by apply elem_of_nil in Hl.
  - intros Hnull. destruct configs as [|config configs].
    { by apply Exists_nil in Hnull. }
    by apply layers_loop_null.
Qed.

Lemma layer_row_kept tableData geojsonCol nameCol styleCol i row :
  layer_row tableData geojsonCol nameCol styleCol i = Ok row →
  match row with
  | Some f => row_kept tableData geojsonCol i = true ∧
              feature_of_row tableData geojsonCol i f
  | None => row_kept tableData geojsonCol i = false
  end.
Proof.
  unfold layer_row, row_kept, feature_of_row.
  destruct (column_cell tableData geojsonCol i) as [raw|]; simpl; [|done].
  destruct (truthy raw); [|by intros [= <-]].
  destruct (parse_if_string raw) as [parsed|] eqn:Hparsed; [|by intros [= <-]].
  destruct (row_style _ _ _) as [style|]; simpl; [|done].
  destruct (if truthy nameCol then _ else _) as [name|]; simpl; [|done].
  intros [= <-]. split; [done|]. by exists raw.
Qed.

Lemma layer_rows_filter tableData geojsonCol nameCol styleCol idxs acc features :
  layer_rows tableData geojsonCol nameCol styleCol idxs acc = Ok features →
  ∃ new, features = acc ++ new ∧
         Forall2 (feature_of_row tableData geojsonCol)
           (List.filter (row_kept tableData geojsonCol) idxs) new.
Proof.
  revert acc. induction idxs as [|i idxs IH]; intros acc; simpl.
  - intros [= <-]. exists []. by rewrite app_nil_r.
  - destruct (layer_row _ _ _ _ i) as [row|] eqn:Hrow; simpl; [|done].
    apply layer_row_kept in Hrow. intros Hrest.
    destruct (IH _ Hrest) as (new & -> & Hnew). destruct row as [f|].
    + destruct Hrow as [-> Hf]. exists (f :: new).
      rewrite <-app_assoc. split; [done|]. by constructor.
    + rewrite Hrow. by exists new.
Qed.

(** X24.  When the pivot of a fetched table completes, the layer holds
    one feature for each row whose GeoJSON cell is truthy and, if it is a
    string, parses, in the order of the rows and carrying the parsed cell;
    rows with an empty cell or with text that does not parse are left out
    without failing the table.  The layer's order defaults to 0 and it is
    interactive unless the configuration says [false]. *)
Theorem table_rows_become_features config tableData layer :
  layer_of_table config tableData = Ok (Some layer) →
  let geojsonCol := prop (prop config "columns") "GeoJSON" in
  ∃ n, ToNumber (prop (prop tableData "id") "length") = Ok n ∧
       Forall2 (feature_of_row tableData geojsonCol)
         (List.filter (row_kept tableData geojsonCol) (seq 0 (loop_count n)))
         (layer_features layer) ∧
       layer_order layer = (if nullish (prop config "order") then VInt 0
                            else prop config "order") ∧
       layer_interactive layer = not_false (prop config "interactive").
Proof.
  unfold layer_of_table, prop. intros Hlayer.
  destruct (truthy tableData); [|done].
  destruct (get_prop tableData "id") as [ids|]; simpl in Hlayer; [|done].
  destruct (truthy ids); [|done].
  destruct (get_prop config "columns") as [columns|]; simpl in Hlayer; [|done].
  destruct (get_prop columns "GeoJSON") as [g|]; simpl in Hlayer; [|done].
  destruct (get_prop columns "Name") as [nameCol|]; simpl in Hlayer; [|done].
  destruct (get_prop columns "Style") as [styleCol|]; simpl in Hlayer; [|done].
  destruct (get_prop ids "length") as [len|]; simpl in Hlayer; [|done].
  destruct (ToNumber len) as [n|]; simpl in Hlayer; [|done].
  destruct (layer_rows _ _ _ _ _ _) as [features|] eqn:Hrows; simpl in Hlayer; [|done].
  destruct (get_prop config "layer"); simpl in Hlayer; [|done].
  destruct (get_prop config "table"); simpl in Hlayer; [|done].
  destruct (get_prop config "order"); simpl in Hlayer; [|done].
  destruct (get_prop config "interactive"); simpl in Hlayer; [|done].
  injection Hlayer as <-. simpl. exists n. split; [done|]. split; [|done].
  by destruct (layer_rows_filter _ _ _ _ _ _ _ Hrows) as (new & -> & Hnew).
Qed.

End LayersMore.

Lemma additional_layers_fetch_plan_witness :
  (@fetchAdditionalLayers sample_host sample_fetchTable
     (VArr [sample_config "Gone"; VObj [("table", VStr "Bare")]; sample_config "Roads"])).1
  = [VStr "Gone"; VStr "Roads"].
Proof.
  apply (proj1 (@additional_layers_fetch_plan sample_host sample_fetchTable
                  [sample_config "Gone"; VObj [("table", VStr "Bare")];
                   sample_config "Roads"])).
  repeat (apply List.Forall_cons; [reflexivity|]). apply List.Forall_nil.
Defined.

Lemma table_rows_become_features_witness :
  ∃ layer,
    @layer_of_table sample_host (sample_config "Roads") sample_layer_table
    = Ok (Some layer) ∧
    length (layer_features layer) = 1 ∧
    layer_order layer = VInt 0 ∧ layer_interactive layer = true.
Proof.
  eexists. split; [reflexivity|].
  destruct (@table_rows_become_features sample_host (sample_config "Roads")
              sample_layer_table _ eq_refl) as (n & Hn & Hrows & Horder & Hinter).
  split; [reflexivity|]. split; [exact Horder|exact Hinter].
Defined.

(** ** Options *)

Section OptionsMore.
Context `{JsHost}.
Variable updateMode : Res unit.
Variable set_value : string → JsVal → Res unit.
Variable JSON_stringify : JsVal → Res JsVal.

Lemma loose_eq_same v :
  is_object v = false → v ≠ VNum NaN → loose_eq v v = Ok true.
Proof.
  intros Hobj Hnan. unfold loose_eq. rewrite Hobj. simpl.
  destruct v as [| |b|[|q]|text|items|fields]; try done; simpl.
  - by rewrite Qeq_bool_refl.
  - by rewrite Qeq_bool_refl.
  - by rewrite String.eqb_refl.
Qed.

(** X25.  The handler never re-renders for a change of mode: it assigns
    the new mode before comparing it with the current one, so that, for a
    mode that is a primitive other than NaN, [updateMode] is not called,
    whatever the mode was before and although the mode is replaced. *)
Theorem options_never_rerender options interaction st :
  let newMode := option_or options "mode" (opt_mode st) in
  let run := onOptions updateMode set_value JSON_stringify options interaction st in
  is_object newMode = false → newMode ≠ VNum NaN →
  (UpdateMode ∉ snd (fst run)) ∧
  (nullish interaction = false → opt_mode run.1.1 = newMode).
Proof.
  intros newMode run Hobj Hnan. subst run. unfold onOptions.
  destruct (get_prop interaction "accessLevel") as [accessLevel|] eqn:Haccess; simpl.
  - fold newMode. rewrite (loose_eq_same newMode Hobj Hnan). simpl.
    destruct (set_value "mapSource" _); simpl;
      [destruct (set_value "mapCopyright" _); simpl;
         [destruct (_ ≫= _); simpl|]|];
      (split; [|done]); intros Hin;
      repeat (apply elem_of_cons in Hin as [Hin|Hin]; [discriminate Hin|]);
      by apply elem_of_nil in Hin.
  - split; [by intros ?%elem_of_nil|]. by destruct interaction.
Qed.

(** X26.  Layer configuration text that is absent, empty or does not parse
    leaves the configuration as it was.  Text that parses replaces it even
    when the value has no length to read: after the text [null] the
    configuration is [null] and the handler fails with a [TypeError]. *)
Theorem options_layers_config options interaction st :
  let newMode := option_or options "mode" (opt_mode st) in
  let layersJson := optional_prop options "additionalLayers" in
  let run := onOptions updateMode set_value JSON_stringify options interaction st in
  nullish interaction = false →
  is_object newMode = false → newMode ≠ VNum NaN →
  (∀ element value, set_value element value = Ok ()) →
  (truthy layersJson = false →
   opt_additionalLayersConfig run.1.1 = opt_additionalLayersConfig st) ∧
  (∀ text e, ToString layersJson = Ok text → JSON_parse text = Throw e →
             opt_additionalLayersConfig run.1.1 = opt_additionalLayersConfig st) ∧
  (∀ text config, truthy layersJson = true → ToString layersJson = Ok text →
                  JSON_parse text = Ok config →
                  opt_additionalLayersConfig run.1.1 = config ∧
                  (nullish config = true → run.2 = Throw TypeError)).
Proof.
  intros newMode layersJson run Hinter Hobj Hnan Hset. subst run. unfold onOptions.
  destruct (get_prop interaction "accessLevel") as [accessLevel|] eqn:Haccess;
    [|by destruct interaction].
  simpl. fold newMode. rewrite (loose_eq_same newMode Hobj Hnan). simpl.
  rewrite !Hset. simpl. fold layersJson.
  set (config := parsed_layers layersJson (opt_additionalLayersConfig st)).
  assert (truthy layersJson = false → config = opt_additionalLayersConfig st) as Hfalsy.
  { intros Hfalsy. subst config. unfold parsed_layers. by rewrite Hfalsy. }
  assert (∀ text e, ToString layersJson = Ok text → JSON_parse text = Throw e →
                    config = opt_additionalLayersConfig st) as Hbad.
  { intros text e Htext Hparse. subst config. unfold parsed_layers.
    rewrite Htext. simpl. rewrite Hparse. by destruct (truthy layersJson). }
  assert (∀ text parsed, truthy layersJson = true → ToString layersJson = Ok text →
                         JSON_parse text = Ok parsed → config = parsed) as Hgood.
  { intros text parsed Htruthy Htext Hparse. subst config. unfold parsed_layers.
    rewrite Htruthy, Htext. simpl. by rewrite Hparse. }
  destruct (get_prop config "length" ≫= _) as [value|e] eqn:Hfinal; simpl.
  - split; [done|]. split; [done|].
    intros text parsed Htruthy Htext Hparse. split; [by eapply Hgood|].
    intros Hnull. rewrite (Hgood _ _ Htruthy Htext Hparse) in Hfinal.
    by destruct parsed.
  - split; [done|]. split; [done|].
    intros text parsed Htruthy Htext Hparse. split; [by eapply Hgood|].
    intros Hnull. rewrite (Hgood _ _ Htruthy Htext Hparse) in Hfinal.
    destruct parsed; try done; simpl in Hfinal; congruence.
Qed.

End OptionsMore.

Lemma options_never_rerender_witness :
  (UpdateMode ∉ snd (fst (@onOptions sample_host (Throw Rejected) (fun _ _ => Ok ())
                  (fun _ => Ok (VStr "[]"))
                  (VObj [("mode", VStr "single")]) sample_interaction
                  sample_settings))) ∧
  opt_mode (@onOptions sample_host (Throw Rejected) (fun _ _ => Ok ())
              (fun _ => Ok (VStr "[]"))
              (VObj [("mode", VStr "single")]) sample_interaction
              sample_settings).1.1 = VStr "single".
Proof.
  destruct (@options_never_rerender sample_host (Throw Rejected) (fun _ _ => Ok ())
              (fun _ => Ok (VStr "[]")) (VObj [("mode", VStr "single")])
              sample_interaction sample_settings eq_refl ltac:(discriminate))
    as [Hlog Hmode].
  split; [exact Hlog|]. by apply Hmode.
Defined.

Lemma options_layers_config_witness :
  (@onOptions (sample_diff_host VNull) (Ok ()) (fun _ _ => Ok ())
     (fun _ => Ok (VStr "[]"))
     (VObj [("additionalLayers", VStr "payload")]) sample_interaction
     sample_settings).2 = Throw TypeError.
Proof.
  apply (proj2 (proj2 (@options_layers_config (sample_diff_host VNull) (Ok ())
                         (fun _ _ => Ok ()) (fun _ => Ok (VStr "[]"))
                         (VObj [("additionalLayers", VStr "payload")])
                         sample_interaction sample_settings eq_refl eq_refl
                         ltac:(discriminate) ltac:(reflexivity)))
           "payload" VNull eq_refl eq_refl eq_refl).
  reflexivity.
Defined.
